(** * litestar.typing: the [FieldDefinition] annotation normaliser

    A shallow embedding of [litestar/typing.py].  Python values that can
    occur as annotations, as [Annotated] metadata, as defaults or as keyword
    definitions are the terms of one inductive type [obj]; dictionaries with
    string keys are [gmap string obj]; the frozen dataclass is a record. *)

From Stdlib Require Import ZArith.
From stdpp Require Import base option list strings gmap fin_maps.

Open Scope string_scope.
Open Scope list_scope.

(** ** Python values *)

(** The special forms of [typing] / [typing_extensions] the module names. *)
Inductive special : Type :=
  | SAny | SUnion | SLiteral | SAnnotated | SRequired | SNotRequired.

#[local] Unset Elimination Schemes.
Inductive obj : Type :=
  | PNone
  | PEllipsis
  | PBool (b : bool)
  | PInt (z : Z)
  | PStr (s : string)
  | PList (items : list obj)
  | PDict (items : list (string * obj))
  | PClass (qualname : string)
  | PSpecial (f : special)
  | PTypeVar (tv_name : string)
  | PForwardRef (arg : string)
  | PFunc (qualname : string)
  | PAlias (alias_origin : obj) (alias_args : list obj)
  | PAnnotated (inner : obj) (m : obj) (ms : list obj)
  | PRequired (inner : obj)
  | PNotRequired (inner : obj)
  | PInst (cls : string) (attrs : list (string * obj)).
#[local] Set Elimination Schemes.

(** [PAlias o args] is a parameterised generic whose runtime origin is [o]:
    [List[int]] is [PAlias (PClass "list") [PClass "int"]], [Optional[int]] is
    [PAlias (PSpecial SUnion) [PClass "int"; PClass "NoneType"]].  The three
    wrapper forms have constructors of their own, [PAnnotated t m ms] being
    [Annotated[t, m, *ms]].  [PInst c attrs] is an instance of the class
    named [c] with the attributes that were set on it. *)

Section list_eqb.
Context {A : Type} (eqb : A → A → bool).
Definition list_eqb : list A → list A → bool :=
    fix go l1 l2 :=
      match l1, l2 with
      | [], [] => true
      | x :: l1', y :: l2' => eqb x y && go l1' l2'
      | _, _ => false
      end.
End list_eqb.

Definition special_eqb (a b : special) : bool :=
  match a, b with
  | SAny, SAny | SUnion, SUnion | SLiteral, SLiteral
  | SAnnotated, SAnnotated | SRequired, SRequired
  | SNotRequired, SNotRequired => true
  | _, _ => false
  end.

Fixpoint obj_eqb (x y : obj) {struct x} : bool :=
  match x, y with
  | PNone, PNone => true
  | PEllipsis, PEllipsis => true
  | PBool a, PBool b => Bool.eqb a b
  | PInt a, PInt b => Z.eqb a b
  | PStr a, PStr b => String.eqb a b
  | PList a, PList b => list_eqb obj_eqb a b
  | PDict a, PDict b =>
      list_eqb (λ p q, String.eqb (fst p) (fst q) && obj_eqb (snd p) (snd q)) a b
  | PClass a, PClass b => String.eqb a b
  | PSpecial a, PSpecial b => special_eqb a b
  | PTypeVar a, PTypeVar b => String.eqb a b
  | PForwardRef a, PForwardRef b => String.eqb a b
  | PFunc a, PFunc b => String.eqb a b
  | PAlias o1 a1, PAlias o2 a2 => obj_eqb o1 o2 && list_eqb obj_eqb a1 a2
  | PAnnotated t1 m1 ms1, PAnnotated t2 m2 ms2 =>
      obj_eqb t1 t2 && obj_eqb m1 m2 && list_eqb obj_eqb ms1 ms2
  | PRequired a, PRequired b => obj_eqb a b
  | PNotRequired a, PNotRequired b => obj_eqb a b
  | PInst c1 a1, PInst c2 a2 =>
      String.eqb c1 c2
      && list_eqb (λ p q, String.eqb (fst p) (fst q) && obj_eqb (snd p) (snd q)) a1 a2
  | _, _ => false
  end.

(** Induction over [obj] that reaches through the lists. *)
Section obj_induction.
Variable P : obj → Prop.
Hypothesis HNone : P PNone.
Hypothesis HEllipsis : P PEllipsis.
Hypothesis HBool : ∀ b, P (PBool b).
Hypothesis HInt : ∀ z, P (PInt z).
Hypothesis HStr : ∀ s, P (PStr s).
Hypothesis HList : ∀ l, Forall P l → P (PList l).
Hypothesis HDict : ∀ l, Forall (λ kv, P (snd kv)) l → P (PDict l).
Hypothesis HClass : ∀ s, P (PClass s).
Hypothesis HSpecial : ∀ f, P (PSpecial f).
Hypothesis HTypeVar : ∀ s, P (PTypeVar s).
Hypothesis HForwardRef : ∀ s, P (PForwardRef s).
Hypothesis HFunc : ∀ s, P (PFunc s).
Hypothesis HAlias : ∀ o l, P o → Forall P l → P (PAlias o l).
Hypothesis HAnnotated : ∀ t m ms, P t → P m → Forall P ms → P (PAnnotated t m ms).
Hypothesis HRequired : ∀ t, P t → P (PRequired t).
Hypothesis HNotRequired : ∀ t, P t → P (PNotRequired t).
Hypothesis HInst : ∀ c l, Forall (λ kv, P (snd kv)) l → P (PInst c l).

Fixpoint obj_nested_ind (x : obj) : P x :=
    let all :=
      fix all (l : list obj) : Forall P l :=
        match l with
        | [] => @List.Forall_nil _ P
        | y :: l' => @List.Forall_cons _ P y l' (obj_nested_ind y) (all l')
        end in
    let all_snd :=
      fix all_snd (l : list (string * obj)) : Forall (λ kv, P (snd kv)) l :=
        match l with
        | [] => @List.Forall_nil _ _
        | kv :: l' => @List.Forall_cons _ (λ kv, P (snd kv)) kv l' (obj_nested_ind (snd kv)) (all_snd l')
        end in
    match x with
    | PNone => HNone
    | PEllipsis => HEllipsis
    | PBool b => HBool b
    | PInt z => HInt z
    | PStr s => HStr s
    | PList l => HList l (all l)
    | PDict l => HDict l (all_snd l)
    | PClass s => HClass s
    | PSpecial f => HSpecial f
    | PTypeVar s => HTypeVar s
    | PForwardRef s => HForwardRef s
    | PFunc s => HFunc s
    | PAlias o l => HAlias o l (obj_nested_ind o) (all l)
    | PAnnotated t m ms =>
        HAnnotated t m ms (obj_nested_ind t) (obj_nested_ind m) (all ms)
    | PRequired t => HRequired t (obj_nested_ind t)
    | PNotRequired t => HNotRequired t (obj_nested_ind t)
    | PInst c l => HInst c l (all_snd l)
    end.
End obj_induction.

(** ** The names the module imports *)

(** Constants of [typing] and [typing_extensions]. *)
Module typing.
Definition Any : obj := PSpecial SAny.
Definition Union : obj := PSpecial SUnion.
Definition Literal : obj := PSpecial SLiteral.
Definition Annotated : obj := PSpecial SAnnotated.
Definition Required : obj := PSpecial SRequired.
Definition NotRequired : obj := PSpecial SNotRequired.
Definition AnyStr : obj := PTypeVar "AnyStr".
Definition Mapping : obj := PClass "Mapping".
Definition Collection : obj := PClass "Collection".
End typing.

(** [litestar.types]: the [Empty] sentinel class, [NoneType] and the set
    [UnionTypes = {UnionType, Union}]. *)
Module types.
Definition Empty : obj := PClass "Empty".
Definition NoneType : obj := PClass "NoneType".
Definition UnionType : obj := PClass "UnionType".
Definition UnionTypes : list obj := [UnionType; typing.Union].
End types.

Module abc.
Definition Callable : obj := PClass "Callable".
End abc.

Module builtins.
Definition str : obj := PClass "str".
Definition bytes : obj := PClass "bytes".
Definition tuple : obj := PClass "tuple".
End builtins.

(** [inspect.Signature.empty] *)
Module Signature.
End Signature.

(** Truth value testing: [None], [False], zero and empty containers are
    falsy, every other value of the model is truthy. *)
Definition truthy (o : obj) : bool :=
  match o with
  | PNone => false
  | PBool b => b
  | PInt z => negb (z =? 0)%Z
  | PStr s => negb (String.eqb s "")
  | PList l => match l with [] => false | _ => true end
  | PDict l => match l with [] => false | _ => true end
  | _ => true
  end.

(** [x in xs] for a tuple, list or set of values compared structurally. *)
Definition py_in (x : obj) (xs : list obj) : bool := existsb (obj_eqb x) xs.

(** [isinstance(value, str)] and [isinstance(value, (str, ForwardRef))]. *)
Definition is_str (o : obj) : bool := match o with PStr _ => true | _ => false end.
Definition is_ForwardRef (o : obj) : bool :=
  match o with PForwardRef _ => true | _ => false end.
Definition is_TypeVar (o : obj) : bool :=
  match o with PTypeVar _ => true | _ => false end.

(** [typing_extensions.get_origin] and [get_args] on the model's aliases. *)
Definition get_origin (tp : obj) : obj :=
  match tp with
  | PAlias o _ => o
  | PAnnotated _ _ _ => typing.Annotated
  | PRequired _ => typing.Required
  | PNotRequired _ => typing.NotRequired
  | _ => PNone
  end.

Definition get_args (tp : obj) : list obj :=
  match tp with
  | PAlias _ args => args
  | PAnnotated t m ms => t :: m :: ms
  | PRequired t => [t]
  | PNotRequired t => [t]
  | _ => []
  end.

(** Modelled from the spec: [unwrap_annotation] of [litestar.utils.typing],
    which is not part of the sources at hand.  It removes the wrapper types
    [Annotated], [Required] and [NotRequired] from the outside in and returns
    the unwrapped annotation, the [Annotated] metadata met on the way and
    the wrappers that were removed. *)
Fixpoint unwrap_annotation (annotation : obj) : obj * list obj * list obj :=
  match annotation with
  | PAnnotated t m ms =>
      let '(a, meta, wrappers) := unwrap_annotation t in
      (a, (m :: ms) ++ meta, typing.Annotated :: wrappers)
  | PRequired t =>
      let '(a, meta, wrappers) := unwrap_annotation t in
      (a, meta, typing.Required :: wrappers)
  | PNotRequired t =>
      let '(a, meta, wrappers) := unwrap_annotation t in
      (a, meta, typing.NotRequired :: wrappers)
  | _ => (annotation, [], [])
  end.

(** Modelled from the spec: [is_annotated_type] of
    [litestar.utils.predicates], which is not part of the sources at hand:
    whether the value is an [Annotated[...]] alias. *)
Definition is_annotated_type (value : obj) : bool :=
  match value with PAnnotated _ _ _ => true | _ => false end.

(** What the module takes from the rest of the package, from pydantic and
    from the interpreter, and whose code is not here.  [type_attr v k] is the
    attribute [k] a value finds on its type when it does not carry it itself
    (dataclass defaults, methods); [mro c] lists the classes the class named
    [c] derives from, itself included; [dir_ c] is [dir(c)]; [py_eq] is [==]
    and [py_hash] is [hash] on the tuples [__hash__] builds. *)
#[local] Unset Elimination Schemes.
Inductive hdata : Type :=
  | HObj (o : obj)
  | HTuple (items : list hdata).
#[local] Set Elimination Schemes.

Module imported.
Class Imports := {
  type_attr : obj → string → option obj;
  mro : string → list string;
  dir_ : string → list string;
  annotated_types_installed : bool;
  is_any : obj → bool;
  is_class_and_subclass : obj → obj → bool;
  is_generic : obj → bool;
  is_non_string_iterable : obj → bool;
  is_non_string_sequence : obj → bool;
  is_pydantic_constrained_field : obj → bool;
  get_instantiable_origin : obj → obj → obj;
  get_safe_generic_origin : obj → obj → obj;
  make_non_optional_union : obj → obj;
  issubclass : obj → string → option bool;
  py_eq : obj → obj → bool;
  py_hash : hdata → Z;
}.
End imported.
Import imported.

(** Attribute lookup in an association list, first binding wins. *)
Fixpoint assoc (k : string) (l : list (string * obj)) : option obj :=
  match l with
  | [] => None
  | (k', v) :: l' => if String.eqb k k' then Some v else assoc k l'
  end.

Section primitives.
Context `{Imports}.

  (** [getattr(value, name, default)] *)
Definition getattr (value : obj) (name : string) (default : obj) : obj :=
    let own := match value with PInst _ attrs => assoc name attrs | _ => None end in
    match own with
    | Some v => v
    | None => match type_attr value name with Some v => v | None => default end
    end.

  (** [isinstance(value, C)] for a class [C] given by name. *)
Definition isinstance (value : obj) (c : string) : bool :=
    match value with
    | PInst k _ => existsb (String.eqb c) (mro k)
    | _ => false
    end.

  (** [isinstance(v, KwargDefinition)] and
      [isinstance(v, (KwargDefinition, DependencyKwarg))] *)
Definition is_KwargDefinition (v : obj) : bool := isinstance v "KwargDefinition".
Definition is_kwarg_or_dependency (v : obj) : bool :=
    isinstance v "KwargDefinition" || isinstance v "DependencyKwarg".
End primitives.

(** A dictionary held by a value, as a finite map. *)
Definition dict_of (o : obj) : gmap string obj :=
  match o with PDict l => list_to_map l | _ => ∅ end.

(** Iterating a list value. *)
Definition py_iter (o : obj) : list obj :=
  match o with PList l => l | _ => [] end.

(** [Example(value=v)] of [litestar.openapi.spec]. *)
Definition Example (v : obj) : obj := PInst "Example" [("value", v)].

(** [len(d) != 0], the truth value of a dictionary. *)
Definition dict_truthy (d : gmap string obj) : bool := negb (Nat.eqb (size d) 0).

Definition is_None (o : obj) : bool := match o with PNone => true | _ => false end.

(** Size of a value, the measure the recursive walks go down on. *)
Fixpoint obj_size (o : obj) : nat :=
  match o with
  | PList l => S (foldr (λ x n, obj_size x + n) 0 l)
  | PDict l => S (foldr (λ kv n, obj_size (snd kv) + n) 0 l)
  | PAlias o l => S (obj_size o + foldr (λ x n, obj_size x + n) 0 l)
  | PAnnotated t m ms =>
      S (obj_size t + obj_size m + foldr (λ x n, obj_size x + n) 0 ms)
  | PRequired t => S (obj_size t)
  | PNotRequired t => S (obj_size t)
  | PInst _ l => S (foldr (λ kv n, obj_size (snd kv) + n) 0 l)
  | _ => 1
  end.

Definition list_size (l : list obj) : nat := foldr (λ x n, obj_size x + n) 0 l.

(** ** Module-level functions *)

Section metadata.
Context `{Imports}.

(** [_unpack_predicate]: the [try] block fails with [ImportError] when
    [annotated_types] is not installed, and the function then returns the
    empty dictionary. *)
Definition _unpack_predicate (value : obj) : gmap string obj :=
  if annotated_types_installed then
    if isinstance value "Predicate" then
      let func := getattr value "func" PNone in
      if obj_eqb func (PFunc "str.islower") then {[ "lower_case" := PBool true ]}
      else if obj_eqb func (PFunc "str.isupper") then {[ "upper_case" := PBool true ]}
      else if obj_eqb func (PFunc "str.isascii") then {[ "pattern" := PStr "[[:ascii:]]" ]}
      else if obj_eqb func (PFunc "str.isdigit") then {[ "pattern" := PStr "[[:digit:]]" ]}
      else ∅
    else ∅
  else ∅.

(** The dictionary [extra or getattr(value, "extra", None) or {}] that
    [_parse_metadata] works on, before [example] is popped from it. *)
Definition effective_extra (value : obj) (extra : option (gmap string obj))
    : gmap string obj :=
  match extra with
  | Some e => if dict_truthy e then e else
      let own := getattr value "extra" PNone in
      if truthy own then dict_of own else ∅
  | None =>
      let own := getattr value "extra" PNone in
      if truthy own then dict_of own else ∅
  end.

(** The dictionary display of [_parse_metadata] before [**extra], in the
    order of the source. *)
Definition constraint_table (value : obj) (is_sequence_container : bool)
    (example_list : obj) : list (string * obj) :=
  [ ("gt", getattr value "gt" PNone);
    ("ge", getattr value "ge" PNone);
    ("lt", getattr value "lt" PNone);
    ("le", getattr value "le" PNone);
    ("multiple_of", getattr value "multiple_of" PNone);
    ("min_length", if is_sequence_container then PNone else getattr value "min_length" PNone);
    ("max_length", if is_sequence_container then PNone else getattr value "max_length" PNone);
    ("description", getattr value "description" PNone);
    ("examples", example_list);
    ("title", getattr value "title" PNone);
    ("lower_case", getattr value "to_lower" PNone);
    ("upper_case", getattr value "to_upper" PNone);
    ("pattern", getattr value "regex" (getattr value "pattern" PNone));
    ("min_items", if is_sequence_container
                  then getattr value "min_items" (getattr value "min_length" PNone)
                  else PNone);
    ("max_items", if is_sequence_container
                  then getattr value "max_items" (getattr value "max_length" PNone)
                  else PNone);
    ("const", PBool (negb (is_None (getattr value "const" PNone)))) ].

(** The [if]/[elif]/[else] of [_parse_metadata] that settles [example_list],
    [used] being the dictionary worked on: the [example] popped from it, or
    else the [examples] of the value. *)
Definition example_list (value : obj) (used : gmap string obj) : obj :=
  let example := from_option id PNone (used !! "example") in
  if truthy example then PList [Example example]
  else
    let examples := getattr value "examples" PNone in
    if truthy examples then PList (map Example (py_iter examples)) else PNone.

(** [_parse_metadata].  The second component is the caller's [extra] after
    the call: when the caller's dictionary is the one worked on, [pop] has
    removed [example] from it. *)
Definition _parse_metadata (value : obj) (is_sequence_container : bool)
    (extra : option (gmap string obj))
    : gmap string obj * option (gmap string obj) :=
  let used := effective_extra value extra in
  let popped := delete "example" used in
  let display : gmap string obj :=
    popped ∪ list_to_map
               (constraint_table value is_sequence_container (example_list value used)) in
  (filter (λ kv, is_None (snd kv) = false) display,
   match extra with
   | Some e => if dict_truthy e then Some popped else extra
   | None => extra
   end).

(** The [for] loop of [_traverse_metadata] over the metadata values, the
    recursive call for a nested [Annotated] being [nested].
    [constraints.update(d)] is [d ∪ constraints]; the caller's [extra] is
    threaded through, since [_parse_metadata] may pop from it. *)
Definition traverse_loop
    (nested : list obj → bool → option (gmap string obj) →
              option (gmap string obj * option (gmap string obj)))
    (is_sequence_container : bool)
    : list obj → gmap string obj → option (gmap string obj) →
      option (gmap string obj * option (gmap string obj)) :=
  fix loop values constraints extra {struct values} :=
    match values with
    | [] => Some (constraints, extra)
    | value :: rest =>
        let type_args := filter (λ v, is_None v = false) (get_args value) in
        if is_annotated_type value && negb (Nat.eqb (length type_args) 0) then
          if Nat.ltb 1 (length type_args) then
            match nested (tail type_args) is_sequence_container extra with
            | Some (found, extra') => loop rest (found ∪ constraints) extra'
            | None => None
            end
          else loop rest constraints extra
        else
          let unpacked_predicate := _unpack_predicate value in
          if dict_truthy unpacked_predicate
          then loop rest (unpacked_predicate ∪ constraints) extra
          else
            let '(parsed, extra') :=
              _parse_metadata value is_sequence_container extra in
            loop rest (parsed ∪ constraints) extra'
    end.

(** [_traverse_metadata], with the depth of the recursion bounded by [fuel]. *)
Fixpoint _traverse_metadata_fuel (fuel : nat) (metadata : list obj)
    (is_sequence_container : bool) (extra : option (gmap string obj))
    : option (gmap string obj * option (gmap string obj)) :=
  match fuel with
  | 0 => None
  | S fuel' =>
      traverse_loop (_traverse_metadata_fuel fuel') is_sequence_container
        metadata ∅ extra
  end.

Definition _traverse_metadata (metadata : list obj) (is_sequence_container : bool)
    (extra : option (gmap string obj))
    : option (gmap string obj * option (gmap string obj)) :=
  _traverse_metadata_fuel (S (list_size metadata)) metadata is_sequence_container extra.

(** Calling the dataclass [model], given by name, with [constraints] as its
    keyword arguments. *)
Definition construct (model : string) (constraints : gmap string obj) : obj :=
  PInst model (map_to_list constraints).

(** The two comprehensions of [_create_metadata_from_type]. *)
Definition split_constraints (model : string) (result : gmap string obj)
    : gmap string obj * gmap string obj :=
  let constraints := filter (λ kv, existsb (String.eqb (fst kv)) (dir_ model) = true) result in
  let extra := filter (λ kv, constraints !! (fst kv) = None) result in
  (constraints, extra).

Definition _create_metadata_from_type (metadata : list obj) (model : string)
    (annotation : obj) (extra : option (gmap string obj))
    : option (obj * gmap string obj) :=
  let is_sequence_container := is_non_string_sequence annotation in
  match _traverse_metadata metadata is_sequence_container extra with
  | None => None
  | Some (result, _) =>
      let '(constraints, extra) := split_constraints model result in
      Some (if dict_truthy constraints then construct model constraints else PNone, extra)
  end.
End metadata.

(** What a call may do to the dictionary the caller passed as [extra]:
    [before] and [after] are both absent, or agree on every key but
    [example]. *)
Definition extra_kept (before after : option (gmap string obj)) : Prop :=
  match before, after with
  | None, None => True
  | Some e, Some e' => ∀ k, k ≠ "example" → e' !! k = e !! k
  | _, _ => False
  end.

(** ** The [FieldDefinition] dataclass *)



Module FieldDefinition.

#[local] Unset Elimination Schemes.
Inductive t : Type := mk {
  raw : obj;
  annotation : obj;
  type_wrappers : list obj;
  origin : obj;
  args : list obj;
  metadata : list obj;
  instantiable_origin : obj;
  safe_generic_origin : obj;
  inner_types : list t;
  default : obj;
  extra : gmap string obj;
  kwarg_definition : obj;
  name : string;
}.
#[local] Set Elimination Schemes.

(** [__slots__] *)
Definition __slots__ : list string :=
  [ "annotation"; "args"; "default"; "extra"; "inner_types"; "instantiable_origin";
    "kwarg_definition"; "metadata"; "name"; "origin"; "raw"; "safe_generic_origin";
    "type_wrappers" ].

(** The right-hand side of a comparison: any value, or another instance. *)
Inductive any : Type :=
  | AnObject (o : obj)
  | AFieldDefinition (f : t).

(** The keyword arguments of [from_annotation]: a dictionary whose keys are
    field names of the dataclass. *)
Record kwargs : Type := mk_kwargs {
  kw_raw : option obj;
  kw_annotation : option obj;
  kw_type_wrappers : option (list obj);
  kw_origin : option obj;
  kw_args : option (list obj);
  kw_metadata : option (list obj);
  kw_instantiable_origin : option obj;
  kw_safe_generic_origin : option obj;
  kw_inner_types : option (list t);
  kw_default : option obj;
  kw_extra : option (gmap string obj);
  kw_kwarg_definition : option obj;
  kw_name : option string;
}.

Definition no_kwargs : kwargs :=
  mk_kwargs None None None None None None None None None None None None None.

(** [kwargs["kwarg_definition"] = v], [kwargs["extra"] = v] and
    [kwargs.pop("default")]. *)
Definition set_kwarg_definition (v : obj) (kw : kwargs) : kwargs :=
  mk_kwargs (kw_raw kw) (kw_annotation kw) (kw_type_wrappers kw) (kw_origin kw)
    (kw_args kw) (kw_metadata kw) (kw_instantiable_origin kw)
    (kw_safe_generic_origin kw) (kw_inner_types kw) (kw_default kw) (kw_extra kw)
    (Some v) (kw_name kw).

Definition set_extra (v : gmap string obj) (kw : kwargs) : kwargs :=
  mk_kwargs (kw_raw kw) (kw_annotation kw) (kw_type_wrappers kw) (kw_origin kw)
    (kw_args kw) (kw_metadata kw) (kw_instantiable_origin kw)
    (kw_safe_generic_origin kw) (kw_inner_types kw) (kw_default kw) (Some v)
    (kw_kwarg_definition kw) (kw_name kw).

Definition pop_default (kw : kwargs) : kwargs :=
  mk_kwargs (kw_raw kw) (kw_annotation kw) (kw_type_wrappers kw) (kw_origin kw)
    (kw_args kw) (kw_metadata kw) (kw_instantiable_origin kw)
    (kw_safe_generic_origin kw) (kw_inner_types kw) None (kw_extra kw)
    (kw_kwarg_definition kw) (kw_name kw).

(** [dataclasses.replace(instance, default=v)] *)
Definition replace_default (instance : t) (v : obj) : t :=
  mk (raw instance) (annotation instance) (type_wrappers instance) (origin instance)
    (args instance) (metadata instance) (instantiable_origin instance)
    (safe_generic_origin instance) (inner_types instance) v (extra instance)
    (kwarg_definition instance) (name instance).

(** The data [__hash__] hashes. *)
Fixpoint hash_data (self : t) : hdata :=
  HTuple [ HObj (PStr (name self)); HObj (raw self); HObj (annotation self);
           HObj (origin self); HTuple (map hash_data (inner_types self)) ].

(** Nesting depth of an instance through its inner types, the measure
    that induction on instances goes down on. *)
Fixpoint depth (self : t) : nat :=
  S (foldr (λ x n, Nat.max (depth x) n) 0 (inner_types self)).

Section methods.
Context `{Imports}.

(** [__eq__].  The tuples of inner types are compared element by element
    with [__eq__] itself. *)
Fixpoint __eq__ (self : t) (other : any) {struct self} : bool :=
  match other with
  | AnObject _ => false
  | AFieldDefinition other =>
      if truthy (origin self) then
        py_eq (origin self) (origin other)
        && list_eqb (λ x y, __eq__ x (AFieldDefinition y))
             (inner_types self) (inner_types other)
      else py_eq (annotation self) (annotation other)
  end.

Definition __hash__ (self : t) : Z := py_hash (hash_data self).

Definition _extract_metadata (annotation : obj) (name : string) (default : obj)
    (metadata : list obj) (extra : option (gmap string obj))
    : option (obj * gmap string obj) :=
  let model := if String.eqb name "data" then "BodyKwarg" else "ParameterKwarg" in
  if isinstance default "FieldInfo" then
    _create_metadata_from_type [default] model annotation extra
  else if is_pydantic_constrained_field annotation
          || isinstance annotation "AbstractDTOFactory" then
    _create_metadata_from_type [annotation] model annotation extra
  else if existsb is_KwargDefinition (get_args annotation) then
    Some (hd PNone (filter (λ arg, is_KwargDefinition arg = true) (get_args annotation)),
          match extra with
          | Some e => if dict_truthy e then e else ∅
          | None => ∅
          end)
  else
    match metadata with
    | _ :: _ => _create_metadata_from_type metadata model annotation extra
    | [] => Some (PNone, ∅)
    end.

Definition has_default (self : t) : bool :=
  negb (obj_eqb (default self) types.Empty) && negb (obj_eqb (default self) PEllipsis).

Definition is_any (self : t) : bool := imported.is_any (annotation self).

Definition is_generic (self : t) : bool := imported.is_generic (annotation self).

Definition is_parameter_field (self : t) : bool :=
  isinstance (kwarg_definition self) "ParameterKwarg".

Definition is_const (self : t) : bool :=
  truthy (kwarg_definition self)
  && truthy (getattr (kwarg_definition self) "const" (PBool false)).

Definition is_annotated (self : t) : bool :=
  py_in typing.Annotated (type_wrappers self).

Definition is_literal (self : t) : bool :=
  obj_eqb (get_origin (annotation self)) typing.Literal.

Definition is_forward_ref (self : t) : bool :=
  is_str (annotation self) || is_ForwardRef (annotation self).

Definition is_type_var (self : t) : bool := is_TypeVar (annotation self).

Definition is_union (self : t) : bool := py_in (origin self) types.UnionTypes.

Definition is_optional (self : t) : bool :=
  is_union self && py_in types.NoneType (args self).

Definition is_non_string_iterable (self : t) : bool :=
  let annotation := annotation self in
  let annotation :=
    if is_optional self then make_non_optional_union annotation else annotation in
  imported.is_non_string_iterable annotation.

Definition is_non_string_sequence (self : t) : bool :=
  let annotation := annotation self in
  let annotation :=
    if is_optional self then make_non_optional_union annotation else annotation in
  imported.is_non_string_sequence annotation.

(** [is_required].  The third branch hands back the [required] attribute
    itself, so the result is a value. *)
Definition is_required (self : t) : obj :=
  if py_in typing.Required (type_wrappers self) then PBool true
  else if py_in typing.NotRequired (type_wrappers self) then PBool false
  else if isinstance (kwarg_definition self) "ParameterKwarg"
          && negb (is_None (getattr (kwarg_definition self) "required" PNone))
  then getattr (kwarg_definition self) "required" PNone
  else PBool (negb (is_optional self) && negb (is_any self)
              && (negb (has_default self) || is_None (default self))).

Fixpoint is_subclass_of (self : t) (cl : obj) {struct self} : bool :=
  if truthy (origin self) then
    if py_in (origin self) types.UnionTypes then
      forallb (λ t, is_subclass_of t cl) (inner_types self)
    else
      negb (py_in (origin self) types.UnionTypes)
      && is_class_and_subclass (origin self) cl
  else if obj_eqb (annotation self) typing.AnyStr then
    is_class_and_subclass builtins.str cl || is_class_and_subclass builtins.bytes cl
  else
    negb (obj_eqb (annotation self) typing.Any)
    && negb (is_type_var self)
    && is_class_and_subclass (annotation self) cl.

Definition has_inner_subclass_of (self : t) (cl : obj) : bool :=
  existsb (λ t, is_subclass_of t cl) (inner_types self).

Definition is_mapping (self : t) : bool := is_subclass_of self typing.Mapping.

Definition is_tuple (self : t) : bool := is_subclass_of self builtins.tuple.

Definition is_collection (self : t) : bool := is_subclass_of self typing.Collection.

(** [cl] is the tuple [(str, bytes)] here. *)
Definition is_non_string_collection (self : t) : bool :=
  is_collection self
  && negb (is_subclass_of self (PList [builtins.str; builtins.bytes])).

Definition is_simple_type (self : t) : bool :=
  negb (is_generic self || is_optional self || is_union self || is_mapping self
        || is_non_string_iterable self).

(** The block of [from_annotation] that settles [kwargs["kwarg_definition"]]
    when the caller gave none (or a falsy one); it hands back the updated
    keyword arguments and metadata. *)
Definition settle_kwarg_definition (annotation : obj) (metadata : list obj)
    (kw : kwargs) : option (kwargs * list obj) :=
  if negb (truthy (from_option id PNone (kw_kwarg_definition kw))) then
    if is_kwarg_or_dependency (from_option id PNone (kw_default kw)) then
      Some (set_kwarg_definition (from_option id PNone (kw_default kw)) (pop_default kw),
            metadata)
    else if existsb is_kwarg_or_dependency metadata then
      Some (set_kwarg_definition
              (hd PNone (filter (λ v, is_kwarg_or_dependency v = true) metadata)) kw,
            filter (λ v, is_kwarg_or_dependency v = false) metadata)
    else
      let extra := from_option id ∅ (kw_extra kw) in
      match (if dict_truthy extra then extra !! "kwarg_definition" else None) with
      | Some kd =>
          Some (set_kwarg_definition kd (set_extra (delete "kwarg_definition" extra) kw),
                metadata)
      | None =>
          match _extract_metadata annotation (from_option id "" (kw_name kw))
                  (from_option id types.Empty (kw_default kw)) metadata (Some extra) with
          | Some (kd, ex) => Some (set_kwarg_definition kd (set_extra ex kw), metadata)
          | None => None
          end
      end
  else Some (kw, metadata).

(** The thirteen [setdefault] calls of [from_annotation] followed by the
    call of the constructor on the keyword arguments: a field takes the caller's value when the
    keyword is there and the computed one otherwise. *)
Definition make_instance (annotation unwrapped origin : obj)
    (args metadata wrappers : list obj) (inner : list t) (kw : kwargs) : t :=
  mk (from_option id annotation (kw_raw kw))
     (from_option id unwrapped (kw_annotation kw))
     (from_option id wrappers (kw_type_wrappers kw))
     (from_option id origin (kw_origin kw))
     (from_option id args (kw_args kw))
     (from_option id metadata (kw_metadata kw))
     (from_option id (get_instantiable_origin origin unwrapped)
        (kw_instantiable_origin kw))
     (from_option id (get_safe_generic_origin origin unwrapped)
        (kw_safe_generic_origin kw))
     (from_option id inner (kw_inner_types kw))
     (from_option id types.Empty (kw_default kw))
     (from_option id ∅ (kw_extra kw))
     (from_option id PNone (kw_kwarg_definition kw))
     (from_option id "" (kw_name kw)).

(** The last three lines of [from_annotation]: an instance without a
    default takes the default of its keyword definition. *)
Definition finish (instance : t) : t :=
  if negb (has_default instance) && truthy (kwarg_definition instance)
  then replace_default instance (getattr (kwarg_definition instance) "default" PNone)
  else instance.

(** [from_annotation], with the depth of the recursion into the generic
    arguments bounded by [fuel]. *)
Fixpoint from_annotation_fuel (fuel : nat) (annotation : obj) (kw : kwargs)
    : option t :=
  match fuel with
  | 0 => None
  | S fuel' =>
      let '(unwrapped, metadata, wrappers) :=
        unwrap_annotation
          (if obj_eqb annotation types.Empty then typing.Any else annotation) in
      let origin := get_origin unwrapped in
      let args := if obj_eqb origin abc.Callable then [] else get_args unwrapped in
      match settle_kwarg_definition annotation metadata kw with
      | None => None
      | Some (kw, metadata) =>
          match mapM (λ arg, from_annotation_fuel fuel' arg no_kwargs) args with
          | None => None
          | Some inner =>
              Some (finish (make_instance annotation unwrapped origin args
                              metadata wrappers inner kw))
          end
      end
  end.

Definition from_annotation (annotation : obj) (kw : kwargs) : option t :=
  from_annotation_fuel (S (obj_size annotation)) annotation kw.

(** [from_kwarg]: arguments that are [None] are not handed on. *)
Definition from_kwarg (annotation : obj) (name : string) (default : obj)
    (inner_types : option (list t)) (kwarg_definition : obj)
    (extra : option (gmap string obj)) : option t :=
  from_annotation annotation
    (mk_kwargs None None None None None None None None
       inner_types
       (if is_None default then None else Some default)
       extra
       (if is_None kwarg_definition then None else Some kwarg_definition)
       (Some name)).

End methods.
End FieldDefinition.

(** [v if v is not None], the filter of the dictionary comprehensions. *)
Definition drop_none (v : obj) : option obj := if is_None v then None else Some v.

(** ** A sample environment

    One instance of [Imports], on which the functions can be run: the class
    hierarchy and the dataclass defaults of [litestar.params], identity as
    equality, and a hash that adds up the lengths of the strings it meets. *)
Definition kwarg_fields : list string :=
  [ "examples"; "external_docs"; "content_encoding"; "default"; "title";
    "description"; "const"; "gt"; "ge"; "lt"; "le"; "multiple_of"; "min_items";
    "max_items"; "min_length"; "max_length"; "pattern"; "lower_case";
    "upper_case"; "format"; "enum"; "read_only" ].

Definition sample_mro (c : string) : list string :=
  if String.eqb c "ParameterKwarg" then ["ParameterKwarg"; "KwargDefinition"; "object"]
  else if String.eqb c "BodyKwarg" then ["BodyKwarg"; "KwargDefinition"; "object"]
  else if String.eqb c "State" then ["State"; "ImmutableState"; "object"]
  else [c; "object"].

Definition sample_type_attr (value : obj) (name : string) : option obj :=
  match value with
  | PInst c _ =>
      if existsb (String.eqb "KwargDefinition") (sample_mro c)
         || String.eqb c "DependencyKwarg"
      then if String.eqb name "default" then Some types.Empty
           else if String.eqb name "required" then Some PNone
           else None
      else None
  | _ => None
  end.

Definition sample_dir (c : string) : list string :=
  if String.eqb c "ParameterKwarg"
  then kwarg_fields ++ ["annotation"; "header"; "cookie"; "query"; "required"]
  else if String.eqb c "BodyKwarg" then kwarg_fields ++ ["media_type"]
  else [].

Definition sample_class_and_subclass (a cl : obj) : bool :=
  match a, cl with
  | PClass x, PClass y => existsb (String.eqb y) (sample_mro x)
  | _, _ => false
  end.

Definition sample_issubclass (a : obj) (c : string) : option bool :=
  match a with
  | PClass x => Some (existsb (String.eqb c) (sample_mro x))
  | _ => None
  end.

Fixpoint sample_hash (d : hdata) : Z :=
  match d with
  | HObj (PStr s) => Z.of_nat (String.length s)
  | HObj _ => 1
  | HTuple l => foldr (λ x n, (sample_hash x + n)%Z) 0%Z l
  end.

Definition sample_imports : Imports := {|
  type_attr := sample_type_attr;
  mro := sample_mro;
  dir_ := sample_dir;
  annotated_types_installed := true;
  imported.is_any := obj_eqb typing.Any;
  is_class_and_subclass := sample_class_and_subclass;
  imported.is_generic := λ _, false;
  imported.is_non_string_iterable := λ a, obj_eqb (get_origin a) (PClass "list");
  imported.is_non_string_sequence := λ a, obj_eqb (get_origin a) (PClass "list");
  is_pydantic_constrained_field := λ _, false;
  get_instantiable_origin := λ o _, o;
  get_safe_generic_origin := λ o _, o;
  make_non_optional_union := λ a, a;
  issubclass := sample_issubclass;
  py_eq := obj_eqb;
  py_hash := sample_hash;
|}.

(** * Properties *)

Open Scope nat_scope.

(** ** Structural equality *)

Lemma list_eqb_true {A} (eqb : A → A → bool) (l1 : list A) :
  Forall (λ x, ∀ y, eqb x y = true ↔ x = y) l1 →
  ∀ l2, list_eqb eqb l1 l2 = true ↔ l1 = l2.
Proof.
  induction 1 as [|x l1 Hx _ IH]; intros [|y l2]; simpl; try (split; congruence).
  rewrite andb_true_iff, Hx, IH. split; [intros [-> ->]; done | intros [= -> ->]; done].
Qed.

Lemma special_eqb_true a b : special_eqb a b = true ↔ a = b.
Proof. destruct a, b; simpl; split; congruence. Qed.

Lemma obj_eqb_true x : ∀ y, obj_eqb x y = true ↔ x = y.
Proof.
  induction x as
    [ | | b | z | s | l IH | l IH | s | f | s | s | s | o l IHo IH
    | t m ms IHt IHm IH | t IH | t IH | c l IH ] using obj_nested_ind;
    intros y; destruct y; simpl; try (split; congruence).
  - rewrite Bool.eqb_true_iff. split; congruence.
  - rewrite Z.eqb_eq. split; congruence.
  - rewrite String.eqb_eq. split; congruence.
  - rewrite (list_eqb_true _ _ IH). split; congruence.
  - rewrite (list_eqb_true _ l).
    + split; congruence.
    + eapply Forall_impl; [exact IH|]. intros [k v] Hv [k' v']; simpl in *.
      rewrite andb_true_iff, String.eqb_eq, Hv. split; [intros [-> ->]; done | intros [= -> ->]; done].
  - rewrite String.eqb_eq. split; congruence.
  - rewrite special_eqb_true. split; congruence.
  - rewrite String.eqb_eq. split; congruence.
  - rewrite String.eqb_eq. split; congruence.
  - rewrite String.eqb_eq. split; congruence.
  - rewrite andb_true_iff, IHo, (list_eqb_true _ _ IH).
    split; [intros [-> ->]; done | intros [= -> ->]; done].
  - rewrite !andb_true_iff, IHt, IHm, (list_eqb_true _ _ IH).
    split; [intros [[-> ->] ->]; done | intros [= -> -> ->]; done].
  - rewrite IH. split; congruence.
  - rewrite IH. split; congruence.
  - rewrite andb_true_iff, String.eqb_eq, (list_eqb_true _ l).
    + split; [intros [-> ->]; done | intros [= -> ->]; done].
    + eapply Forall_impl; [exact IH|]. intros [k v] Hv [k' v']; simpl in *.
      rewrite andb_true_iff, String.eqb_eq, Hv. split; [intros [-> ->]; done | intros [= -> ->]; done].
Qed.

Lemma obj_eqb_refl x : obj_eqb x x = true.
Proof. by apply obj_eqb_true. Qed.

Lemma obj_eqb_false x y : obj_eqb x y = false ↔ x ≠ y.
Proof.
  rewrite <- obj_eqb_true. destruct (obj_eqb x y); split; congruence.
Qed.

Lemma py_in_elem_of x xs : py_in x xs = true ↔ x ∈ xs.
Proof.
  unfold py_in. rewrite existsb_exists. split.
  - intros (y & Hy & E). apply obj_eqb_true in E. subst. by apply list_elem_of_In.
  - intros Hx. exists x. split; [by apply list_elem_of_In | apply obj_eqb_refl].
Qed.

Lemma py_in_not_elem_of x xs : py_in x xs = false ↔ x ∉ xs.
Proof.
  rewrite <- py_in_elem_of. destruct (py_in x xs); split; congruence.
Qed.

(** ** The measure of the recursive walks *)

Lemma obj_size_pos o : 0 < obj_size o.
Proof. destruct o; simpl; lia. Qed.

Lemma list_size_elem x l : x ∈ l → obj_size x ≤ list_size l.
Proof.
  induction 1 as [x l|x y l _ IH]; unfold list_size in *; simpl; lia.
Qed.

Lemma list_size_filter (P : obj → Prop) `{∀ x, Decision (P x)} l :
  list_size (filter P l) ≤ list_size l.
Proof.
  induction l as [|x l IH]; [done|].
  rewrite filter_cons. unfold list_size in *. destruct (decide (P x)); simpl; lia.
Qed.

Lemma list_size_tail l : list_size (tail l) ≤ list_size l.
Proof. destruct l; unfold list_size; simpl; lia. Qed.

Lemma get_args_size tp : list_size (get_args tp) < obj_size tp.
Proof.
  destruct tp; unfold list_size; simpl; try lia.
Qed.

Lemma unwrap_annotation_size a : obj_size (unwrap_annotation a).1.1 ≤ obj_size a.
Proof.
  induction a using obj_nested_ind; simpl; try lia;
    destruct (unwrap_annotation _) as [[u meta] w]; simpl in *; lia.
Qed.

(** ** The walks return *)

Lemma mapM_ext_in {A B} (f g : A → option B) (l : list A) :
  (∀ x, x ∈ l → f x = g x) → mapM f l = mapM g l.
Proof.
  induction l as [|x l IH]; intros Hfg; [done|]. simpl.
  rewrite (Hfg x) by apply list_elem_of_here. rewrite IH; [done|].
  intros y Hy. apply Hfg. by apply list_elem_of_further.
Qed.

Lemma mapM_total {A B} (f : A → option B) (l : list A) :
  (∀ x, x ∈ l → is_Some (f x)) → is_Some (mapM f l).
Proof.
  intros Hf. apply mapM_is_Some, Forall_forall. exact Hf.
Qed.

Section walks.
Context `{Imports}.

Lemma traverse_loop_cons nested seq value rest constraints extra :
  traverse_loop nested seq (value :: rest) constraints extra =
  let type_args := filter (λ v, is_None v = false) (get_args value) in
  if is_annotated_type value && negb (Nat.eqb (length type_args) 0) then
    if Nat.ltb 1 (length type_args) then
      match nested (tail type_args) seq extra with
      | Some (found, extra') => traverse_loop nested seq rest (found ∪ constraints) extra'
      | None => None
      end
    else traverse_loop nested seq rest constraints extra
  else
    if dict_truthy (_unpack_predicate value)
    then traverse_loop nested seq rest (_unpack_predicate value ∪ constraints) extra
    else traverse_loop nested seq rest
           ((_parse_metadata value seq extra).1 ∪ constraints)
           (_parse_metadata value seq extra).2.
Proof.
  simpl. destruct (_ && _); [done|]. destruct (dict_truthy _); [done|].
  by destruct (_parse_metadata value seq extra).
Qed.

Lemma traverse_loop_total nested seq values :
  (∀ value, value ∈ values → is_annotated_type value = true →
     ∀ extra, is_Some (nested
       (tail (filter (λ v, is_None v = false) (get_args value))) seq extra)) →
  ∀ constraints extra, is_Some (traverse_loop nested seq values constraints extra).
Proof.
  induction values as [|value rest IH]; intros Hn constraints extra; [by eexists|].
  assert (Hrest : ∀ c e, is_Some (traverse_loop nested seq rest c e)).
  { apply IH. intros v Hv. apply Hn. by apply list_elem_of_further. }
  rewrite traverse_loop_cons. cbv zeta.
  destruct (is_annotated_type value) eqn:Ha; cbn [andb].
  - destruct (negb _); [|destruct (dict_truthy _); apply Hrest].
    destruct (Nat.ltb _ _); [|apply Hrest].
    destruct (Hn value (list_elem_of_here value rest) Ha extra) as [[found extra'] ->].
    apply Hrest.
  - destruct (dict_truthy _); apply Hrest.
Qed.

Lemma traverse_metadata_fuel_total fuel : ∀ metadata seq extra,
  list_size metadata < fuel →
  is_Some (_traverse_metadata_fuel fuel metadata seq extra).
Proof.
  induction fuel as [|fuel IH]; intros metadata seq extra Hsz; [lia|]. simpl.
  apply traverse_loop_total. intros value Hv Ha extra'. apply IH.
  pose proof (list_size_elem _ _ Hv).
  pose proof (get_args_size value).
  pose proof (list_size_tail (filter (λ v, is_None v = false) (get_args value))).
  pose proof (list_size_filter (λ v, is_None v = false) (get_args value)).
  lia.
Qed.

Lemma traverse_metadata_total metadata seq extra :
  is_Some (_traverse_metadata metadata seq extra).
Proof. apply traverse_metadata_fuel_total. lia. Qed.

Lemma create_metadata_from_type_total metadata model annotation extra :
  is_Some (_create_metadata_from_type metadata model annotation extra).
Proof.
  unfold _create_metadata_from_type.
  destruct (traverse_metadata_total metadata (is_non_string_sequence annotation) extra)
    as [[result e] ->].
  destruct (split_constraints model result). by eexists.
Qed.

Lemma extract_metadata_total annotation name default metadata extra :
  is_Some (FieldDefinition._extract_metadata annotation name default metadata extra).
Proof.
  unfold FieldDefinition._extract_metadata.
  repeat match goal with
         | |- is_Some (if ?b then _ else _) => destruct b
         | |- is_Some (match ?l with [] => _ | _ :: _ => _ end) => destruct l
         | |- is_Some (Some _) => by eexists
         | |- is_Some (_create_metadata_from_type _ _ _ _) =>
             apply create_metadata_from_type_total
         end.
Qed.

Lemma settle_kwarg_definition_total annotation metadata kw :
  is_Some (FieldDefinition.settle_kwarg_definition annotation metadata kw).
Proof.
  unfold FieldDefinition.settle_kwarg_definition.
  destruct (negb _); [|by eexists].
  destruct (is_kwarg_or_dependency _); [by eexists|].
  destruct (existsb _ _); [by eexists|].
  destruct (if dict_truthy _ then _ else _); [by eexists|].
  destruct (extract_metadata_total annotation
              (from_option id "" (FieldDefinition.kw_name kw))
              (from_option id types.Empty (FieldDefinition.kw_default kw)) metadata
              (Some (from_option id ∅ (FieldDefinition.kw_extra kw))))
    as [[kd ex] ->].
  by eexists.
Qed.

(** The annotation [from_annotation] unwraps: [Any] stands in for [Empty]. *)
Lemma unwrapped_source_size a :
  obj_size (if obj_eqb a types.Empty then typing.Any else a) ≤ obj_size a.
Proof.
  destruct (obj_eqb a types.Empty) eqn:E; [|done].
  apply obj_eqb_true in E. by subst.
Qed.

Lemma generic_args_smaller a u meta w x :
  unwrap_annotation (if obj_eqb a types.Empty then typing.Any else a) = (u, meta, w) →
  x ∈ (if obj_eqb (get_origin u) abc.Callable then [] else get_args u) →
  obj_size x < obj_size a.
Proof.
  intros Hu Hx.
  pose proof (unwrap_annotation_size (if obj_eqb a types.Empty then typing.Any else a)) as Hs.
  rewrite Hu in Hs. simpl in Hs.
  pose proof (unwrapped_source_size a).
  destruct (obj_eqb (get_origin u) abc.Callable); [by apply elem_of_nil in Hx|].
  pose proof (list_size_elem _ _ Hx). pose proof (get_args_size u). lia.
Qed.

Lemma from_annotation_fuel_total fuel : ∀ a kw,
  obj_size a < fuel → is_Some (FieldDefinition.from_annotation_fuel fuel a kw).
Proof.
  induction fuel as [|fuel IH]; intros a kw Hsz; [lia|]. simpl.
  destruct (unwrap_annotation _) as [[u meta] w] eqn:Hu.
  destruct (settle_kwarg_definition_total a meta kw) as [[kw' meta'] ->].
  destruct (mapM_total (λ arg, FieldDefinition.from_annotation_fuel fuel arg
                                 FieldDefinition.no_kwargs)
              (if obj_eqb (get_origin u) abc.Callable then [] else get_args u))
    as [inner ->]; [|by eexists].
  intros x Hx. apply IH. pose proof (generic_args_smaller _ _ _ _ _ Hu Hx). lia.
Qed.

Lemma from_annotation_fuel_mono fuel : ∀ a kw fd,
  FieldDefinition.from_annotation_fuel fuel a kw = Some fd →
  ∀ fuel', fuel ≤ fuel' → FieldDefinition.from_annotation_fuel fuel' a kw = Some fd.
Proof.
  induction fuel as [|fuel IH]; intros a kw fd Hfd fuel' Hle; [done|].
  destruct fuel' as [|fuel']; [lia|]. simpl in *.
  destruct (unwrap_annotation _) as [[u meta] w].
  destruct (FieldDefinition.settle_kwarg_definition _ _ _) as [[kw' meta']|]; [|done].
  destruct (mapM _ _) as [inner|] eqn:Hin; [|done].
  assert (mapM (λ arg, FieldDefinition.from_annotation_fuel fuel' arg
                         FieldDefinition.no_kwargs)
            (if obj_eqb (get_origin u) abc.Callable then [] else get_args u)
          = Some inner) as ->; [|done].
  apply mapM_Some. apply mapM_Some in Hin.
  eapply Forall2_impl; [exact Hin|]. intros x y Hxy. simpl in *.
  eapply IH; [exact Hxy|lia].
Qed.

Lemma from_annotation_total a kw : is_Some (FieldDefinition.from_annotation a kw).
Proof. apply from_annotation_fuel_total. lia. Qed.

(** [from_annotation] as the source reads, the recursive calls being calls
    of [from_annotation] itself. *)
Lemma from_annotation_unfold a kw :
  FieldDefinition.from_annotation a kw =
  let '(unwrapped, metadata, wrappers) :=
    unwrap_annotation (if obj_eqb a types.Empty then typing.Any else a) in
  let origin := get_origin unwrapped in
  let args := if obj_eqb origin abc.Callable then [] else get_args unwrapped in
  match FieldDefinition.settle_kwarg_definition a metadata kw with
  | None => None
  | Some (kw', metadata') =>
      match mapM (λ arg, FieldDefinition.from_annotation arg FieldDefinition.no_kwargs)
              args with
      | None => None
      | Some inner =>
          Some (FieldDefinition.finish
                  (FieldDefinition.make_instance a unwrapped origin args metadata'
                     wrappers inner kw'))
      end
  end.
Proof.
  unfold FieldDefinition.from_annotation at 1. simpl.
  destruct (unwrap_annotation _) as [[u meta] w] eqn:Hu.
  destruct (FieldDefinition.settle_kwarg_definition _ _ _) as [[kw' meta']|]; [|done].
  rewrite (mapM_ext_in _
             (λ arg, FieldDefinition.from_annotation arg FieldDefinition.no_kwargs));
    [done|].
  intros x Hx. pose proof (generic_args_smaller _ _ _ _ _ Hu Hx).
  destruct (from_annotation_total x FieldDefinition.no_kwargs) as [fd Hfd].
  rewrite Hfd. eapply from_annotation_fuel_mono; [exact Hfd|lia].
Qed.
End walks.

(** ** What [from_annotation] stores *)

Lemma filter_false_id {A} (p : A → bool) (l : list A) :
  existsb p l = false → filter (λ v, p v = false) l = l.
Proof.
  induction l as [|x l IH]; [done|]. simpl. intros [Hx Hl]%orb_false_iff.
  rewrite filter_cons. destruct (decide (p x = false)); [|done]. by rewrite IH.
Qed.

Section stored.
Context `{Imports}.
Import FieldDefinition.

(** [finish] touches the default only. *)
Lemma finish_keeps instance :
  raw (finish instance) = raw instance
  ∧ annotation (finish instance) = annotation instance
  ∧ type_wrappers (finish instance) = type_wrappers instance
  ∧ origin (finish instance) = origin instance
  ∧ args (finish instance) = args instance
  ∧ metadata (finish instance) = metadata instance
  ∧ inner_types (finish instance) = inner_types instance
  ∧ kwarg_definition (finish instance) = kwarg_definition instance
  ∧ name (finish instance) = name instance.
Proof. unfold finish. by destruct (_ && _). Qed.

(** The keyword-definition block leaves every keyword alone but
    [kwarg_definition], [extra] and [default], and takes the keyword
    definitions out of the metadata exactly when it looked for one there. *)
Lemma settle_kwarg_definition_keeps a meta kw kw' meta' :
  settle_kwarg_definition a meta kw = Some (kw', meta') →
  kw_raw kw' = kw_raw kw
  ∧ kw_annotation kw' = kw_annotation kw
  ∧ kw_type_wrappers kw' = kw_type_wrappers kw
  ∧ kw_origin kw' = kw_origin kw
  ∧ kw_args kw' = kw_args kw
  ∧ kw_metadata kw' = kw_metadata kw
  ∧ kw_inner_types kw' = kw_inner_types kw
  ∧ kw_name kw' = kw_name kw
  ∧ meta' =
      (if negb (truthy (from_option id PNone (kw_kwarg_definition kw)))
          && negb (is_kwarg_or_dependency (from_option id PNone (kw_default kw)))
       then filter (λ v, is_kwarg_or_dependency v = false) meta
       else meta).
Proof.
  unfold settle_kwarg_definition.
  destruct (negb (truthy _)); cbn [andb]; [|by intros [= <- <-]].
  destruct (is_kwarg_or_dependency (from_option _ _ _)); cbn [negb];
    [by intros [= <- <-]|].
  destruct (existsb _ meta) eqn:Hex; [by intros [= <- <-]|].
  rewrite (filter_false_id _ _ Hex).
  destruct (if dict_truthy _ then _ else _); [by intros [= <- <-]|].
  destruct (_extract_metadata _ _ _ _ _) as [[kd ex]|]; [|done].
  by intros [= <- <-].
Qed.

(** The instance [from_annotation] returns, in terms of the source. *)
Lemma from_annotation_returns a kw :
  ∃ kw' meta' inner,
    let source := if obj_eqb a types.Empty then typing.Any else a in
    let unwrapped := (unwrap_annotation source).1.1 in
    let origin := get_origin unwrapped in
    let args := if obj_eqb origin abc.Callable then [] else get_args unwrapped in
    settle_kwarg_definition a (unwrap_annotation source).1.2 kw = Some (kw', meta')
    ∧ mapM (λ arg, from_annotation arg no_kwargs) args = Some inner
    ∧ from_annotation a kw =
        Some (finish (make_instance a unwrapped origin args meta'
                        (unwrap_annotation source).2 inner kw')).
Proof.
  cbv zeta. pose proof (from_annotation_unfold a kw) as Hu.
  destruct (unwrap_annotation _) as [[u meta] w]. simpl in *.
  destruct (settle_kwarg_definition_total a meta kw) as [[kw' meta'] Hs].
  rewrite Hs in Hu.
  destruct (mapM_total (λ arg, from_annotation arg no_kwargs)
              (if obj_eqb (get_origin u) abc.Callable then [] else get_args u))
    as [inner Hin]; [intros; apply from_annotation_total|].
  rewrite Hin in Hu. by exists kw', meta', inner.
Qed.
End stored.

(** C1, amended: for every annotation A, and keyword arguments that do not
    set [raw], [annotation], [type_wrappers] or [metadata],
    [from_annotation] returns an instance whose [raw] is A as received,
    whose [annotation], [type_wrappers] and [metadata] are what
    [unwrap_annotation] finds in A, or in [Any] when A is the [Empty]
    sentinel; the metadata lose their [KwargDefinition] and
    [DependencyKwarg] entries when the keyword definition was looked for
    there, and the first of them is then the [kwarg_definition]. *)
Theorem from_annotation_unwraps `{Imports} (A : obj) (kw : FieldDefinition.kwargs) :
  FieldDefinition.kw_raw kw = None →
  FieldDefinition.kw_annotation kw = None →
  FieldDefinition.kw_type_wrappers kw = None →
  FieldDefinition.kw_metadata kw = None →
  let source := if obj_eqb A types.Empty then typing.Any else A in
  let '(unwrapped, found, wrappers) := unwrap_annotation source in
  let searched :=
    negb (truthy (from_option id PNone (FieldDefinition.kw_kwarg_definition kw)))
    && negb (is_kwarg_or_dependency
               (from_option id PNone (FieldDefinition.kw_default kw))) in
  (A ≠ types.Empty → source = A)
  ∧ ∃ fd, FieldDefinition.from_annotation A kw = Some fd
      ∧ FieldDefinition.raw fd = A
      ∧ FieldDefinition.annotation fd = unwrapped
      ∧ FieldDefinition.type_wrappers fd = wrappers
      ∧ FieldDefinition.metadata fd =
          (if searched then filter (λ v, is_kwarg_or_dependency v = false) found
           else found)
      ∧ (searched = true → existsb is_kwarg_or_dependency found = true →
         Some (FieldDefinition.kwarg_definition fd)
         = head (filter (λ v, is_kwarg_or_dependency v = true) found)).
Proof.
  intros Hraw Hann Htw Hmd source.
  destruct (from_annotation_returns A kw) as (kw' & meta' & inner & Hs & _ & Hfd).
  fold source in Hs, Hfd.
  destruct (unwrap_annotation source) as [[unwrapped found] wrappers] eqn:Hu.
  simpl in *. split.
  { intros HA. subst source. apply obj_eqb_false in HA. by rewrite HA. }
  eexists. split; [exact Hfd|].
  destruct (settle_kwarg_definition_keeps _ _ _ _ _ Hs)
    as (Kraw & Kann & Ktw & _ & _ & Kmd & _ & _ & Hmeta).
  destruct (finish_keeps (FieldDefinition.make_instance A unwrapped (get_origin unwrapped)
    (if obj_eqb (get_origin unwrapped) abc.Callable then [] else get_args unwrapped)
    meta' wrappers inner kw'))
    as (-> & -> & -> & _ & _ & -> & _ & -> & _).
  simpl. rewrite Kraw, Kann, Ktw, Kmd, Hraw, Hann, Htw, Hmd. simpl.
  repeat split; try done.
  intros Hsearched Hex.
  unfold FieldDefinition.settle_kwarg_definition in Hs.
  apply andb_true_iff in Hsearched as [H1 H2]. rewrite H1 in Hs.
  apply negb_true_iff in H2. rewrite H2, Hex in Hs.
  injection Hs as <- _. simpl.
  destruct (filter _ found) as [|v l] eqn:Hf; [|done].
  exfalso. apply existsb_exists in Hex as (x & Hx & Hk).
  apply list_elem_of_In in Hx.
  assert (x ∈ filter (λ v, is_kwarg_or_dependency v = true) found) as Hin
    by (apply list_elem_of_filter; done).
  rewrite Hf in Hin. by apply elem_of_nil in Hin.
Qed.

(** C1 as stated fails at the [Empty] sentinel: the instance's annotation
    is [Any], which is not [Empty] with its wrappers removed. *)
Lemma from_annotation_Empty_is_Any :
  ∃ fd, @FieldDefinition.from_annotation sample_imports types.Empty
          FieldDefinition.no_kwargs = Some fd
    ∧ FieldDefinition.raw fd = types.Empty
    ∧ FieldDefinition.annotation fd = typing.Any
    ∧ FieldDefinition.annotation fd ≠ (unwrap_annotation types.Empty).1.1.
Proof. eexists. split; [vm_compute; reflexivity|]. by repeat split. Qed.

Lemma from_annotation_unwraps_witness :
  ∃ fd, @FieldDefinition.from_annotation sample_imports
          (PRequired (PAnnotated (PClass "int")
             (PInst "ParameterKwarg" [("gt", PInt 0)]) [PStr "note"]))
          FieldDefinition.no_kwargs = Some fd
    ∧ FieldDefinition.annotation fd = PClass "int"
    ∧ FieldDefinition.type_wrappers fd = [typing.Required; typing.Annotated]
    ∧ FieldDefinition.metadata fd = [PStr "note"].
Proof.
  destruct (@from_annotation_unwraps sample_imports
              (PRequired (PAnnotated (PClass "int")
                 (PInst "ParameterKwarg" [("gt", PInt 0)]) [PStr "note"]))
              FieldDefinition.no_kwargs eq_refl eq_refl eq_refl eq_refl)
    as (_ & fd & Hfd & _ & Hann & Htw & Hmd & _).
  exists fd. repeat split; assumption.
Defined.

(** ** Origin, args and inner types *)

(** The [Empty] sentinel and [Any], which stands in for it, have the same
    origin and the same args. *)
Lemma unwrapped_source_generic (A : obj) :
  let source := if obj_eqb A types.Empty then typing.Any else A in
  get_origin (unwrap_annotation source).1.1 = get_origin (unwrap_annotation A).1.1
  ∧ get_args (unwrap_annotation source).1.1 = get_args (unwrap_annotation A).1.1.
Proof.
  cbv zeta. destruct (obj_eqb A types.Empty) eqn:HA; [|done].
  apply obj_eqb_true in HA as ->. done.
Qed.

(** What [from_annotation] stores as annotation, origin, args and inner
    types, in terms of the annotation it was given. *)
Lemma from_annotation_origin_args `{Imports} (A : obj) (kw : FieldDefinition.kwargs) :
  FieldDefinition.kw_origin kw = None →
  FieldDefinition.kw_args kw = None →
  FieldDefinition.kw_inner_types kw = None →
  let source := if obj_eqb A types.Empty then typing.Any else A in
  let unwrapped := (unwrap_annotation A).1.1 in
  ∃ fd, FieldDefinition.from_annotation A kw = Some fd
    ∧ FieldDefinition.annotation fd
      = from_option id (unwrap_annotation source).1.1 (FieldDefinition.kw_annotation kw)
    ∧ FieldDefinition.origin fd = get_origin unwrapped
    ∧ FieldDefinition.args fd
      = (if obj_eqb (get_origin unwrapped) abc.Callable then [] else get_args unwrapped)
    ∧ mapM (λ arg, FieldDefinition.from_annotation arg FieldDefinition.no_kwargs)
        (FieldDefinition.args fd)
      = Some (FieldDefinition.inner_types fd).
Proof.
  intros Hor Har Hin.
  destruct (from_annotation_returns A kw) as (kw' & meta' & inner & Hs & Hinner & Hfd).
  destruct (unwrapped_source_generic A) as [Eor Ear].
  cbv zeta in *. eexists. split; [exact Hfd|].
  destruct (settle_kwarg_definition_keeps _ _ _ _ _ Hs)
    as (_ & Kann & _ & Kor & Kar & _ & Kin & _ & _).
  match goal with
  | |- context [FieldDefinition.finish ?i] =>
      destruct (finish_keeps i) as (_ & -> & _ & -> & -> & _ & -> & _ & _)
  end.
  cbn [FieldDefinition.make_instance FieldDefinition.annotation FieldDefinition.origin
       FieldDefinition.args FieldDefinition.inner_types].
  rewrite Kann, Kor, Kar, Kin, Hor, Har, Hin. cbn [from_option id].
  rewrite Eor, Ear in *. done.
Qed.

(** C2: for every annotation A, and keyword arguments that do not set
    [annotation], [origin], [args] or [inner_types], [from_annotation]
    returns an instance whose [origin] is [get_origin] of A unwrapped by
    [unwrap_annotation], whose [args] are [get_args] of A unwrapped, or
    the empty tuple when the origin is [collections.abc.Callable], and
    whose [inner_types] are [from_annotation] applied to each of the
    [args].  The unwrapped A is also what the [annotation] field holds,
    but for the [Empty] sentinel, whose origin and args are those of the
    [Any] stored for it. *)
Theorem from_annotation_generic_args `{Imports} (A : obj)
    (kw : FieldDefinition.kwargs) :
  FieldDefinition.kw_annotation kw = None →
  FieldDefinition.kw_origin kw = None →
  FieldDefinition.kw_args kw = None →
  FieldDefinition.kw_inner_types kw = None →
  let unwrapped := (unwrap_annotation A).1.1 in
  ∃ fd, FieldDefinition.from_annotation A kw = Some fd
    ∧ (A ≠ types.Empty → FieldDefinition.annotation fd = unwrapped)
    ∧ FieldDefinition.origin fd = get_origin unwrapped
    ∧ FieldDefinition.origin fd = get_origin (FieldDefinition.annotation fd)
    ∧ (FieldDefinition.origin fd = abc.Callable → FieldDefinition.args fd = [])
    ∧ (FieldDefinition.origin fd ≠ abc.Callable →
       FieldDefinition.args fd = get_args unwrapped
       ∧ FieldDefinition.args fd = get_args (FieldDefinition.annotation fd))
    ∧ mapM (λ arg, FieldDefinition.from_annotation arg FieldDefinition.no_kwargs)
        (FieldDefinition.args fd)
      = Some (FieldDefinition.inner_types fd).
Proof.
  intros Hann Hor Har Hin. cbv zeta.
  destruct (from_annotation_origin_args A kw Hor Har Hin)
    as (fd & Hfd & Ha & Ho & Hargs & Hinner).
  destruct (unwrapped_source_generic A) as [Eor Ear]. cbv zeta in *.
  rewrite Hann in Ha. cbn [from_option id] in Ha.
  exists fd. split; [exact Hfd|]. split; [|split; [exact Ho|split; [|split; [|split]]]].
  - intros HA. apply obj_eqb_false in HA. by rewrite HA in Ha.
  - by rewrite Ho, Ha, Eor.
  - intros Hc. rewrite Ho in Hc. by rewrite Hargs, Hc, obj_eqb_refl.
  - intros Hc. rewrite Ho in Hc. apply obj_eqb_false in Hc.
    rewrite Hargs, Hc, Ha, Ear. done.
  - exact Hinner.
Qed.

Lemma from_annotation_generic_args_witness :
  ∃ fd, @FieldDefinition.from_annotation sample_imports
          (PAnnotated
             (PAlias (PClass "dict") [PClass "str"; PAlias (PClass "list") [PClass "int"]])
             (PStr "note") [])
          FieldDefinition.no_kwargs = Some fd
    ∧ FieldDefinition.annotation fd
      = PAlias (PClass "dict") [PClass "str"; PAlias (PClass "list") [PClass "int"]]
    ∧ FieldDefinition.origin fd = PClass "dict"
    ∧ FieldDefinition.args fd = [PClass "str"; PAlias (PClass "list") [PClass "int"]]
    ∧ mapM (λ arg, @FieldDefinition.from_annotation sample_imports arg
                     FieldDefinition.no_kwargs)
        (FieldDefinition.args fd)
      = Some (FieldDefinition.inner_types fd).
Proof.
  destruct (@from_annotation_generic_args sample_imports
              (PAnnotated
                 (PAlias (PClass "dict")
                    [PClass "str"; PAlias (PClass "list") [PClass "int"]])
                 (PStr "note") [])
              FieldDefinition.no_kwargs eq_refl eq_refl eq_refl eq_refl)
    as (fd & Hfd & Ha & Ho & _ & _ & Hargs & Hin).
  exists fd. split; [exact Hfd|]. split; [apply Ha; discriminate|].
  split; [exact Ho|]. split; [|exact Hin].
  apply Hargs. rewrite Ho. discriminate.
Defined.

(** C4: [is_union] holds exactly when the origin is one of the union types,
    which for an instance built by [from_annotation] is the origin of the
    unwrapped annotation, and [is_optional] exactly when [is_union] holds
    and [NoneType] is among the args. *)
Theorem is_union_is_optional `{Imports} (fd : FieldDefinition.t) :
  (FieldDefinition.is_union fd = true ↔ FieldDefinition.origin fd ∈ types.UnionTypes)
  ∧ (FieldDefinition.is_optional fd = true ↔
     FieldDefinition.is_union fd = true ∧ types.NoneType ∈ FieldDefinition.args fd)
  ∧ (∀ A built,
       FieldDefinition.from_annotation A FieldDefinition.no_kwargs = Some built →
       (FieldDefinition.is_union built = true ↔
        get_origin (FieldDefinition.annotation built) ∈ types.UnionTypes)).
Proof.
  split; [apply py_in_elem_of|]. split.
  - unfold FieldDefinition.is_optional. by rewrite andb_true_iff, py_in_elem_of.
  - intros A built Hb.
    destruct (from_annotation_origin_args A FieldDefinition.no_kwargs
                eq_refl eq_refl eq_refl) as (fd' & Hfd' & Ha & Ho & _).
    destruct (unwrapped_source_generic A) as [Eor _]. cbv zeta in *.
    rewrite Hb in Hfd'. injection Hfd' as <-.
    cbn [FieldDefinition.no_kwargs FieldDefinition.kw_annotation from_option id] in Ha.
    unfold FieldDefinition.is_union. by rewrite py_in_elem_of, Ha, Eor, Ho.
Qed.

(** ** Subclass tests *)

Section subclass.
Context `{Imports}.
Import FieldDefinition.

Lemma is_subclass_of_unfold self cl :
  is_subclass_of self cl =
  if truthy (origin self) then
    if py_in (origin self) types.UnionTypes then
      forallb (λ t, is_subclass_of t cl) (inner_types self)
    else
      negb (py_in (origin self) types.UnionTypes)
      && is_class_and_subclass (origin self) cl
  else if obj_eqb (annotation self) typing.AnyStr then
    is_class_and_subclass builtins.str cl || is_class_and_subclass builtins.bytes cl
  else
    negb (obj_eqb (annotation self) typing.Any)
    && negb (is_type_var self)
    && is_class_and_subclass (annotation self) cl.
Proof. by destruct self. Qed.

Lemma union_types_truthy o : o ∈ types.UnionTypes → truthy o = true.
Proof.
  unfold types.UnionTypes. rewrite !elem_of_cons, elem_of_nil.
  by intros [->|[->|[]]].
Qed.

Lemma is_subclass_of_union self cl :
  origin self ∈ types.UnionTypes →
  is_subclass_of self cl = forallb (λ t, is_subclass_of t cl) (inner_types self).
Proof.
  intros Hu. rewrite is_subclass_of_unfold, (union_types_truthy _ Hu).
  apply py_in_elem_of in Hu. by rewrite Hu.
Qed.
End subclass.

Lemma forallb_Forall_true {A} (p : A → bool) (l : list A) :
  forallb p l = true ↔ Forall (λ x, p x = true) l.
Proof.
  rewrite forallb_forall, Forall_forall. by setoid_rewrite list_elem_of_In.
Qed.

(** C5: on an instance whose [origin] is the origin of its annotation,
    [is_subclass_of(cl)] of a union holds exactly when every inner type is
    a subclass of [cl]; [is_collection] is [is_subclass_of(Collection)], so
    on a union it holds exactly when every member is a subclass of
    [Collection], that is, a collection itself; for [AnyStr],
    [is_subclass_of(cl)] holds exactly when [str] or [bytes] is a subclass
    of [cl]; for [Any] and for any other type variable it never holds. *)
Theorem is_subclass_of_cases `{Imports} (fd : FieldDefinition.t) (cl : obj) :
  FieldDefinition.origin fd = get_origin (FieldDefinition.annotation fd) →
  (get_origin (FieldDefinition.annotation fd) ∈ types.UnionTypes →
     (FieldDefinition.is_subclass_of fd cl = true ↔
      Forall (λ t, FieldDefinition.is_subclass_of t cl = true)
        (FieldDefinition.inner_types fd))
     ∧ FieldDefinition.is_collection fd
       = FieldDefinition.is_subclass_of fd typing.Collection
     ∧ (FieldDefinition.is_collection fd = true ↔
        Forall (λ t, FieldDefinition.is_subclass_of t typing.Collection = true)
          (FieldDefinition.inner_types fd))
     ∧ (FieldDefinition.is_collection fd = true ↔
        Forall (λ t, FieldDefinition.is_collection t = true)
          (FieldDefinition.inner_types fd)))
  ∧ (FieldDefinition.annotation fd = typing.AnyStr →
     FieldDefinition.is_subclass_of fd cl =
     is_class_and_subclass builtins.str cl || is_class_and_subclass builtins.bytes cl)
  ∧ (FieldDefinition.annotation fd = typing.Any →
     FieldDefinition.is_subclass_of fd cl = false)
  ∧ (is_TypeVar (FieldDefinition.annotation fd) = true →
     FieldDefinition.annotation fd ≠ typing.AnyStr →
     FieldDefinition.is_subclass_of fd cl = false).
Proof.
  intros Hwf. split; [|split; [|split]].
  - rewrite <- Hwf. intros Hu. split; [|split; [done|split]].
    + by rewrite is_subclass_of_union, forallb_Forall_true.
    + unfold FieldDefinition.is_collection.
      by rewrite is_subclass_of_union, forallb_Forall_true.
    + unfold FieldDefinition.is_collection at 1.
      by rewrite is_subclass_of_union, forallb_Forall_true.
  - intros Ha. rewrite is_subclass_of_unfold, Hwf, Ha. reflexivity.
  - intros Ha. rewrite is_subclass_of_unfold, Hwf, Ha. reflexivity.
  - intros Htv Hne. rewrite is_subclass_of_unfold, Hwf.
    unfold FieldDefinition.is_type_var. rewrite Htv.
    destruct (FieldDefinition.annotation fd); try discriminate. simpl.
    apply obj_eqb_false in Hne. simpl in Hne. rewrite Hne. reflexivity.
Qed.

Lemma is_subclass_of_cases_witness :
  let plain c :=
    FieldDefinition.mk (PClass c) (PClass c) [] PNone [] [] PNone PNone []
      types.Empty ∅ PNone "" in
  let union :=
    FieldDefinition.mk (PAlias typing.Union [PClass "int"; PClass "str"])
      (PAlias typing.Union [PClass "int"; PClass "str"]) [] typing.Union
      [PClass "int"; PClass "str"] [] typing.Union typing.Union
      [plain "int"; plain "str"] types.Empty ∅ PNone "" in
  @FieldDefinition.is_subclass_of sample_imports
    (FieldDefinition.mk typing.AnyStr typing.AnyStr [] PNone [] [] PNone PNone []
       types.Empty ∅ PNone "")
    builtins.str = true
  ∧ @FieldDefinition.is_subclass_of sample_imports union (PClass "object") = true
  ∧ @FieldDefinition.is_collection sample_imports union ≠ true.
Proof.
  cbv zeta. split; [|split].
  - destruct (@is_subclass_of_cases sample_imports
                (FieldDefinition.mk typing.AnyStr typing.AnyStr [] PNone [] [] PNone PNone
                   [] types.Empty ∅ PNone "")
                builtins.str eq_refl) as (_ & Hs & _).
    rewrite Hs; reflexivity.
  - match goal with
    | |- FieldDefinition.is_subclass_of ?u ?c = true =>
        destruct (@is_subclass_of_cases sample_imports u c eq_refl) as (Hu & _)
    end.
    apply Hu; [apply list_elem_of_further, list_elem_of_here|].
    repeat constructor.
  - match goal with
    | |- FieldDefinition.is_collection ?u ≠ true =>
        destruct (@is_subclass_of_cases sample_imports u PNone eq_refl) as (Hu & _)
    end.
    intros Hc. apply Hu in Hc; [|apply list_elem_of_further, list_elem_of_here].
    inversion Hc as [|? ? Hint _]. discriminate Hint.
Defined.

(** C8: [is_required] follows a strict precedence.  [Required] among the
    type wrappers gives [True]; failing that, [NotRequired] among them gives
    [False]; failing that, a [ParameterKwarg] whose [required] attribute is
    not [None] gives that attribute; and in every remaining case the result
    is [True] exactly when the field is not optional, not [Any], and has no
    default or the default [None], so that an explicit default of [None]
    leaves such a field required. *)
Theorem is_required_precedence `{Imports} (fd : FieldDefinition.t) :
  let kd := FieldDefinition.kwarg_definition fd in
  let wrappers := FieldDefinition.type_wrappers fd in
  let computed :=
    negb (FieldDefinition.is_optional fd) && negb (FieldDefinition.is_any fd)
    && (negb (FieldDefinition.has_default fd) || is_None (FieldDefinition.default fd)) in
  (typing.Required ∈ wrappers → FieldDefinition.is_required fd = PBool true)
  ∧ (typing.Required ∉ wrappers → typing.NotRequired ∈ wrappers →
     FieldDefinition.is_required fd = PBool false)
  ∧ (typing.Required ∉ wrappers → typing.NotRequired ∉ wrappers →
     isinstance kd "ParameterKwarg" = true → getattr kd "required" PNone ≠ PNone →
     FieldDefinition.is_required fd = getattr kd "required" PNone)
  ∧ (typing.Required ∉ wrappers → typing.NotRequired ∉ wrappers →
     isinstance kd "ParameterKwarg" = false ∨ getattr kd "required" PNone = PNone →
     FieldDefinition.is_required fd = PBool computed
     ∧ (FieldDefinition.is_optional fd = false → FieldDefinition.is_any fd = false →
        FieldDefinition.default fd = PNone →
        FieldDefinition.is_required fd = PBool true)).
Proof.
  cbv zeta. unfold FieldDefinition.is_required.
  split; [|split; [|split]].
  - intros Hr. apply py_in_elem_of in Hr. by rewrite Hr.
  - intros Hr Hn. apply py_in_not_elem_of in Hr. apply py_in_elem_of in Hn.
    by rewrite Hr, Hn.
  - intros Hr Hn Hk Hq. apply py_in_not_elem_of in Hr. apply py_in_not_elem_of in Hn.
    rewrite Hr, Hn, Hk.
    destruct (getattr _ "required" PNone); try reflexivity. by destruct Hq.
  - intros Hr Hn Hk. apply py_in_not_elem_of in Hr. apply py_in_not_elem_of in Hn.
    rewrite Hr, Hn.
    assert (isinstance (FieldDefinition.kwarg_definition fd) "ParameterKwarg"
            && negb (is_None (getattr (FieldDefinition.kwarg_definition fd) "required" PNone))
            = false) as ->.
    { destruct Hk as [->| ->]; [done|]. apply andb_false_r. }
    split; [done|]. intros -> -> Hd.
    unfold FieldDefinition.has_default. by rewrite Hd.
Qed.

(** ** Equality and hashing *)

Section equality.
Context `{Imports}.
Import FieldDefinition.

Lemma eq_unfold self other :
  __eq__ self (AFieldDefinition other) =
  if truthy (origin self) then
    py_eq (origin self) (origin other)
    && list_eqb (λ x y, __eq__ x (AFieldDefinition y))
         (inner_types self) (inner_types other)
  else py_eq (annotation self) (annotation other).
Proof. by destruct self. Qed.

Lemma eq_not_instance self o : __eq__ self (AnObject o) = false.
Proof. by destruct self. Qed.
End equality.

(** C9: equality ignores most fields.  When [a.origin] is truthy, [a == b]
    is [a.origin == b.origin and a.inner_types == b.inner_types]; when it is
    falsy, [a == b] is [a.annotation == b.annotation]; a value that is not
    an instance compares unequal; so [name], [raw], [default], [metadata],
    [kwarg_definition] and [extra] of either side play no part.  The hash is
    taken over [name] and [raw] as well, and there are two instances that
    compare equal and have different hashes. *)
Theorem eq_ignores_most_fields :
  (∀ (I : Imports) (a b : FieldDefinition.t),
     (truthy (FieldDefinition.origin a) = true →
      FieldDefinition.__eq__ a (FieldDefinition.AFieldDefinition b)
      = py_eq (FieldDefinition.origin a) (FieldDefinition.origin b)
        && list_eqb (λ x y, FieldDefinition.__eq__ x (FieldDefinition.AFieldDefinition y))
             (FieldDefinition.inner_types a) (FieldDefinition.inner_types b))
     ∧ (truthy (FieldDefinition.origin a) = false →
        FieldDefinition.__eq__ a (FieldDefinition.AFieldDefinition b)
        = py_eq (FieldDefinition.annotation a) (FieldDefinition.annotation b))
     ∧ (∀ o, FieldDefinition.__eq__ a (FieldDefinition.AnObject o) = false)
     ∧ (∀ a' b',
          FieldDefinition.origin a' = FieldDefinition.origin a →
          FieldDefinition.annotation a' = FieldDefinition.annotation a →
          FieldDefinition.inner_types a' = FieldDefinition.inner_types a →
          FieldDefinition.origin b' = FieldDefinition.origin b →
          FieldDefinition.annotation b' = FieldDefinition.annotation b →
          FieldDefinition.inner_types b' = FieldDefinition.inner_types b →
          FieldDefinition.__eq__ a' (FieldDefinition.AFieldDefinition b')
          = FieldDefinition.__eq__ a (FieldDefinition.AFieldDefinition b))
     ∧ (FieldDefinition.hash_data a = FieldDefinition.hash_data b →
        FieldDefinition.name a = FieldDefinition.name b
        ∧ FieldDefinition.raw a = FieldDefinition.raw b))
  ∧ ∃ a b : FieldDefinition.t,
      @FieldDefinition.__eq__ sample_imports a (FieldDefinition.AFieldDefinition b) = true
      ∧ FieldDefinition.name a ≠ FieldDefinition.name b
      ∧ @FieldDefinition.__hash__ sample_imports a ≠ @FieldDefinition.__hash__ sample_imports b.
Proof.
  split.
  - intros I a b. split; [|split; [|split; [|split]]].
    + intros Ho. by rewrite eq_unfold, Ho.
    + intros Ho. by rewrite eq_unfold, Ho.
    + apply eq_not_instance.
    + intros a' b' Ho Ha Hi Ho' Ha' Hi'.
      by rewrite !eq_unfold, Ho, Ha, Hi, Ho', Ha', Hi'.
    + destruct a, b. simpl. intros Hh. by injection Hh as -> ->.
  - exists (FieldDefinition.mk (PClass "int") (PClass "int") [] PNone [] [] PNone PNone []
              types.Empty ∅ PNone "x"),
           (FieldDefinition.mk (PAnnotated (PClass "int") (PStr "note") []) (PClass "int")
              [typing.Annotated] PNone [] [PStr "note"] PNone PNone []
              (PInt 1) ∅ PNone "xy").
    split; [reflexivity|]. split; [discriminate|]. vm_compute. discriminate.
Qed.

(** ** Constraints read off the metadata *)

Lemma list_to_map_assoc (l : list (string * obj)) (k : string) :
  (list_to_map l : gmap string obj) !! k = assoc k l.
Proof.
  induction l as [|[k' v] l IH]; simpl; [apply lookup_empty|].
  destruct (String.eqb_spec k k') as [->|Hne].
  - apply lookup_insert_eq.
  - rewrite lookup_insert_ne by done. exact IH.
Qed.

Lemma dict_truthy_empty : dict_truthy (∅ : gmap string obj) = false.
Proof. unfold dict_truthy. by rewrite map_size_empty. Qed.

Lemma dict_truthy_singleton (k : string) (v : obj) :
  dict_truthy ({[ k := v ]} : gmap string obj) = true.
Proof. unfold dict_truthy. by rewrite map_size_singleton. Qed.

Section constraints.
Context `{Imports}.

Lemma parse_metadata_lookup value seq extra k :
  (_parse_metadata value seq extra).1 !! k =
  match delete "example" (effective_extra value extra) !! k with
  | Some v => drop_none v
  | None =>
      assoc k (constraint_table value seq
                 (example_list value (effective_extra value extra))) ≫= drop_none
  end.
Proof.
  unfold _parse_metadata. cbn [fst].
  rewrite map_lookup_filter, lookup_union, list_to_map_assoc.
  destruct (delete "example" _ !! k) as [v|];
    [destruct (assoc k _)|destruct (assoc k _) as [v|]]; simpl; try done;
    unfold drop_none; by destruct v.
Qed.

Lemma parse_metadata_no_None value seq extra k :
  (_parse_metadata value seq extra).1 !! k ≠ Some PNone.
Proof.
  unfold _parse_metadata. cbn [fst]. intros Hk.
  apply map_lookup_filter_Some in Hk as [_ Hk]. discriminate.
Qed.

Lemma traverse_metadata_single value seq extra :
  is_annotated_type value = false →
  _traverse_metadata [value] seq extra =
  if dict_truthy (_unpack_predicate value) then Some (_unpack_predicate value, extra)
  else Some (_parse_metadata value seq extra).
Proof.
  intros Ha. unfold _traverse_metadata. cbn [_traverse_metadata_fuel].
  rewrite traverse_loop_cons. cbv zeta. rewrite Ha. cbn [andb traverse_loop].
  rewrite !(right_id_L ∅ (∪)).
  destruct (dict_truthy _); [done|]. by destruct (_parse_metadata value seq extra).
Qed.

Lemma isinstance_not_annotated value c :
  isinstance value c = true → is_annotated_type value = false.
Proof. by destruct value. Qed.
End constraints.

(** C6, amended: for a [Predicate] of [annotated_types] whose [func] is
    [str.islower], [str.isupper], [str.isascii] or [str.isdigit],
    [_unpack_predicate] gives [lower_case: True], [upper_case: True],
    [pattern: "[[:ascii:]]"] or [pattern: "[[:digit:]]"], and that
    dictionary is all the value adds to the constraints.  For any other
    [Predicate], for a value that is no [Predicate], and when
    [annotated_types] is not installed, [_unpack_predicate] gives the empty
    dictionary; [_traverse_metadata] then hands the value to
    [_parse_metadata], whose constraints it takes over, and these hold the
    key [const] unless the extra dictionary sets it to [None]. *)
Theorem unpack_predicate_cases `{Imports} (value : obj) :
  let func := getattr value "func" PNone in
  let adds (d : gmap string obj) :=
    _unpack_predicate value = d
    ∧ ∀ seq extra, _traverse_metadata [value] seq extra = Some (d, extra) in
  (annotated_types_installed = true → isinstance value "Predicate" = true →
     (func = PFunc "str.islower" → adds {[ "lower_case" := PBool true ]})
     ∧ (func = PFunc "str.isupper" → adds {[ "upper_case" := PBool true ]})
     ∧ (func = PFunc "str.isascii" → adds {[ "pattern" := PStr "[[:ascii:]]" ]})
     ∧ (func = PFunc "str.isdigit" → adds {[ "pattern" := PStr "[[:digit:]]" ]})
     ∧ (func ∉ [PFunc "str.islower"; PFunc "str.isupper"; PFunc "str.isascii";
                PFunc "str.isdigit"] →
        _unpack_predicate value = ∅))
  ∧ (annotated_types_installed = false ∨ isinstance value "Predicate" = false →
     _unpack_predicate value = ∅)
  ∧ (_unpack_predicate value = ∅ → is_annotated_type value = false →
     ∀ seq extra,
       _traverse_metadata [value] seq extra = Some (_parse_metadata value seq extra)
       ∧ (effective_extra value extra !! "const" = None →
          (_parse_metadata value seq extra).1 !! "const"
          = Some (PBool (negb (is_None (getattr value "const" PNone)))))).
Proof.
  cbv zeta. split; [|split].
  - intros Hi Hp. pose proof (isinstance_not_annotated _ _ Hp) as Ha.
    unfold _unpack_predicate. rewrite Hi, Hp.
    split; [|split; [|split; [|split]]].
    1, 2, 3, 4: intros Hf; rewrite Hf; (split; [done|]); intros seq extra;
      rewrite traverse_metadata_single by done;
      unfold _unpack_predicate; rewrite Hi, Hp, Hf;
      cbn [obj_eqb String.eqb Ascii.eqb Bool.eqb];
      by rewrite dict_truthy_singleton.
    intros Hf. apply py_in_not_elem_of in Hf. simpl in Hf.
    rewrite !orb_false_iff in Hf. destruct Hf as (-> & -> & -> & -> & _). done.
  - unfold _unpack_predicate. intros [-> | Hp]; [done|].
    rewrite Hp. by destruct annotated_types_installed.
  - intros Hu Ha seq extra. split.
    + rewrite traverse_metadata_single by done. by rewrite Hu, dict_truthy_empty.
    + intros Hc. rewrite parse_metadata_lookup, lookup_delete_ne by done.
      by rewrite Hc.
Qed.

(** An unrecognised predicate leaves a constraint behind:
    [_traverse_metadata([Predicate(str.isalpha)], False, None)] is
    [{"const": False}]. *)
Lemma traverse_unrecognised_predicate :
  let value := PInst "Predicate" [("func", PFunc "str.isalpha")] in
  @isinstance sample_imports value "Predicate" = true
  ∧ @_unpack_predicate sample_imports value = ∅
  ∧ ∃ constraints,
      @_traverse_metadata sample_imports [value] false None = Some (constraints, None)
      ∧ constraints !! "const" = Some (PBool false)
      ∧ constraints ≠ ∅.
Proof.
  cbv zeta. split; [vm_compute; reflexivity|]. split; [vm_compute; reflexivity|].
  exists (@_parse_metadata sample_imports
            (PInst "Predicate" [("func", PFunc "str.isalpha")]) false None).1.
  split; [|split].
  - vm_compute. reflexivity.
  - rewrite parse_metadata_lookup. vm_compute. reflexivity.
  - intros He.
    apply (f_equal (λ m : gmap string obj, m !! "const")) in He.
    rewrite parse_metadata_lookup, lookup_empty in He. vm_compute in He. discriminate.
Qed.

Lemma existsb_eqb_elem_of (k : string) (l : list string) :
  existsb (String.eqb k) l = true ↔ k ∈ l.
Proof.
  rewrite existsb_exists. setoid_rewrite <- list_elem_of_In. split.
  - intros (x & Hx & Hk). by apply String.eqb_eq in Hk as ->.
  - intros Hk. exists k. split; [done|]. apply String.eqb_refl.
Qed.

Section split.
Context `{Imports}.

Lemma split_constraints_lookup model (result : gmap string obj) k :
  (k ∈ dir_ model →
     (split_constraints model result).1 !! k = result !! k
     ∧ (split_constraints model result).2 !! k = None)
  ∧ (k ∉ dir_ model →
     (split_constraints model result).1 !! k = None
     ∧ (split_constraints model result).2 !! k = result !! k).
Proof.
  unfold split_constraints. cbn [fst snd].
  rewrite !map_lookup_filter. cbn [fst snd].
  rewrite <- existsb_eqb_elem_of.
  destruct (existsb (String.eqb k) (dir_ model)) eqn:Hk; split; try done; intros _.
  - destruct (result !! k) as [v|] eqn:Hv; simpl; [|done].
    split; [done|]. rewrite option_guard_False; [done|].
    intros Hn. apply map_lookup_filter_None in Hn as [Hn|Hn]; [congruence|].
    specialize (Hn v Hv). simpl in Hn. congruence.
  - destruct (result !! k) as [v|] eqn:Hv; simpl; [|done].
    split; [done|]. rewrite option_guard_True; [done|].
    apply map_lookup_filter_None. right. intros x _. simpl. by rewrite Hk.
Qed.
End split.

(** C3, amended: [_parse_metadata] copies the attributes [gt], [ge], [lt],
    [le], [multiple_of], [description] and [title] of the value under their
    own names, [to_lower] and [to_upper] under [lower_case] and
    [upper_case], and [regex], or else [pattern], under [pattern]; no key is
    bound to [None].  Outside a sequence container [min_length] and
    [max_length] are copied and [min_items] and [max_items] are absent; in a
    sequence container [min_length] and [max_length] are absent, and
    [min_items] and [max_items] take the value's attribute of that name when
    it has one, [None] included, and its [min_length] and [max_length] only
    when it has none.  [const] is always there, as a boolean; the entries of
    the extra dictionary other than [example] go in as they are and take
    precedence.  [_create_metadata_from_type] hands the keys found in
    [dir(model)] to the constructor of [model] and returns the other keys as
    the extra mapping. *)
Theorem parse_metadata_constraints `{Imports} (value : obj) (seq : bool)
    (extra : option (gmap string obj)) :
  let used := effective_extra value extra in
  let result := (_parse_metadata value seq extra).1 in
  let attr name := drop_none (getattr value name PNone) in
  let absent name := ∀ d, getattr value name d = d in
  (∀ k, result !! k ≠ Some PNone)
  ∧ (∀ k v, k ≠ "example" → used !! k = Some v → result !! k = drop_none v)
  ∧ result !! "example" = None
  ∧ Forall (λ '(key, name), used !! key = None → result !! key = attr name)
      [ ("gt", "gt"); ("ge", "ge"); ("lt", "lt"); ("le", "le");
        ("multiple_of", "multiple_of"); ("description", "description");
        ("title", "title"); ("lower_case", "to_lower"); ("upper_case", "to_upper") ]
  ∧ (used !! "pattern" = None →
     result !! "pattern" = drop_none (getattr value "regex" (getattr value "pattern" PNone)))
  ∧ (used !! "examples" = None →
     result !! "examples" = drop_none (example_list value used))
  ∧ (used !! "const" = None →
     result !! "const" = Some (PBool (negb (is_None (getattr value "const" PNone)))))
  ∧ Forall (λ '(length_key, items_key),
       used !! length_key = None → used !! items_key = None →
       if seq then
         result !! length_key = None
         ∧ result !! items_key
           = drop_none (getattr value items_key (getattr value length_key PNone))
         ∧ (absent items_key → result !! items_key = attr length_key)
       else
         result !! length_key = attr length_key ∧ result !! items_key = None)
      [ ("min_length", "min_items"); ("max_length", "max_items") ]
  ∧ (∀ model (found : gmap string obj) k,
       (k ∈ dir_ model →
          (split_constraints model found).1 !! k = found !! k
          ∧ (split_constraints model found).2 !! k = None)
       ∧ (k ∉ dir_ model →
          (split_constraints model found).1 !! k = None
          ∧ (split_constraints model found).2 !! k = found !! k))
  ∧ (∀ metadata model annotation,
       ∃ found extra',
         _traverse_metadata metadata (is_non_string_sequence annotation) extra
         = Some (found, extra')
         ∧ _create_metadata_from_type metadata model annotation extra
           = Some (if dict_truthy (split_constraints model found).1
                   then construct model (split_constraints model found).1
                   else PNone,
                   (split_constraints model found).2)).
Proof.
  cbv zeta.
  split; [intros k; apply parse_metadata_no_None|].
  split.
  { intros k v Hk Hu. by rewrite parse_metadata_lookup, lookup_delete_ne, Hu. }
  split.
  { by rewrite parse_metadata_lookup, lookup_delete_eq. }
  split.
  { repeat constructor; intros Hu;
      by rewrite parse_metadata_lookup, lookup_delete_ne, Hu. }
  split.
  { intros Hu. by rewrite parse_metadata_lookup, lookup_delete_ne, Hu. }
  split.
  { intros Hu. by rewrite parse_metadata_lookup, lookup_delete_ne, Hu. }
  split.
  { intros Hu. by rewrite parse_metadata_lookup, lookup_delete_ne, Hu. }
  split.
  { repeat constructor; intros Hl Hi;
      rewrite !parse_metadata_lookup, !lookup_delete_ne, Hl, Hi by done;
      destruct seq; cbn [assoc constraint_table String.eqb Ascii.eqb Bool.eqb mbind option_bind];
      repeat split; try done; by intros ->. }
  split; [intros model found k; apply split_constraints_lookup|].
  intros metadata model annotation.
  destruct (traverse_metadata_total metadata (is_non_string_sequence annotation) extra)
    as [[found extra'] Ht].
  exists found, extra'. split; [exact Ht|].
  unfold _create_metadata_from_type. rewrite Ht.
  by destruct (split_constraints model found).
Qed.

(** In a sequence container a value with [min_length = 3] whose own
    [min_items] is [None], as a [FieldInfo] built with [min_length] alone
    has it, is left with neither key. *)
Lemma parse_metadata_min_length_lost :
  let value := PInst "FieldInfo" [("min_items", PNone); ("min_length", PInt 3)] in
  let result := (@_parse_metadata sample_imports value true None).1 in
  @getattr sample_imports value "min_length" PNone = PInt 3
  ∧ result !! "min_items" = None
  ∧ result !! "min_length" = None
  ∧ result !! "min_items" ≠ drop_none (@getattr sample_imports value "min_length" PNone).
Proof.
  cbv zeta. rewrite !parse_metadata_lookup.
  split; [vm_compute; reflexivity|]. split; [vm_compute; reflexivity|].
  split; [vm_compute; reflexivity|]. vm_compute. discriminate.
Qed.

(** ** Instances built for parameters *)

Section parameters.
Context `{Imports}.
Import FieldDefinition.




End parameters.



(** ** How the traversal composes *)

Section traversal.
Context `{Imports}.

Lemma traverse_loop_ext nested1 nested2 seq values :
  (∀ value, value ∈ values → is_annotated_type value = true →
     ∀ extra,
       nested1 (tail (filter (λ v, is_None v = false) (get_args value))) seq extra
       = nested2 (tail (filter (λ v, is_None v = false) (get_args value))) seq extra) →
  ∀ constraints extra,
    traverse_loop nested1 seq values constraints extra
    = traverse_loop nested2 seq values constraints extra.
Proof.
  induction values as [|value rest IH]; intros Hn constraints extra; [done|].
  assert (Hrest : ∀ c e, traverse_loop nested1 seq rest c e
                         = traverse_loop nested2 seq rest c e).
  { apply IH. intros v Hv. apply Hn. by apply list_elem_of_further. }
  rewrite !traverse_loop_cons. cbv zeta.
  destruct (is_annotated_type value) eqn:Ha; cbn [andb].
  - destruct (negb _); [|destruct (dict_truthy _); apply Hrest].
    destruct (Nat.ltb _ _); [|apply Hrest].
    rewrite (Hn value (list_elem_of_here value rest) Ha extra).
    destruct (nested2 _ _ _) as [[found extra']|]; [apply Hrest|done].
  - destruct (dict_truthy _); apply Hrest.
Qed.

Lemma traverse_metadata_fuel_mono fuel : ∀ fuel' metadata seq extra,
  list_size metadata < fuel → list_size metadata < fuel' →
  _traverse_metadata_fuel fuel metadata seq extra
  = _traverse_metadata_fuel fuel' metadata seq extra.
Proof.
  induction fuel as [|fuel IH]; intros fuel' metadata seq extra Hf Hf'; [lia|].
  destruct fuel' as [|fuel']; [lia|]. simpl.
  apply traverse_loop_ext. intros value Hv Ha extra'. apply IH.
  all: pose proof (list_size_elem _ _ Hv);
    pose proof (get_args_size value);
    pose proof (list_size_tail (filter (λ v, is_None v = false) (get_args value)));
    pose proof (list_size_filter (λ v, is_None v = false) (get_args value));
    lia.
Qed.

(** [_traverse_metadata] satisfies the equation of the source: the loop,
    with the function itself called on a nested [Annotated]. *)
Lemma traverse_metadata_unfold metadata seq extra :
  _traverse_metadata metadata seq extra
  = traverse_loop _traverse_metadata seq metadata ∅ extra.
Proof.
  unfold _traverse_metadata at 1. cbn [_traverse_metadata_fuel].
  apply traverse_loop_ext. intros value Hv Ha extra'.
  apply traverse_metadata_fuel_mono.
  all: pose proof (list_size_elem _ _ Hv);
    pose proof (get_args_size value);
    pose proof (list_size_tail (filter (λ v, is_None v = false) (get_args value)));
    pose proof (list_size_filter (λ v, is_None v = false) (get_args value));
    lia.
Qed.



Lemma extra_kept_refl e : extra_kept e e.
Proof. by destruct e. Qed.

Lemma extra_kept_trans e1 e2 e3 : extra_kept e1 e2 → extra_kept e2 e3 → extra_kept e1 e3.
Proof.
  destruct e1, e2, e3; simpl; try done. intros H12 H23 k Hk.
  by rewrite H23, H12.
Qed.

Lemma parse_metadata_extra_kept value seq extra :
  extra_kept extra (_parse_metadata value seq extra).2.
Proof.
  unfold _parse_metadata. cbn [snd]. destruct extra as [e|]; [|done].
  unfold effective_extra. destruct (dict_truthy e); simpl; [|done].
  intros k Hk. by rewrite lookup_delete_ne.
Qed.

Lemma traverse_loop_extra_kept nested seq values :
  (∀ value, value ∈ values → ∀ extra found extra',
     nested (tail (filter (λ v, is_None v = false) (get_args value))) seq extra
     = Some (found, extra') → extra_kept extra extra') →
  ∀ constraints extra found extra',
    traverse_loop nested seq values constraints extra = Some (found, extra') →
    extra_kept extra extra'.
Proof.
  induction values as [|value rest IH]; intros Hn constraints extra found extra'.
  { intros [= _ <-]. apply extra_kept_refl. }
  assert (Hrest : ∀ c e f e', traverse_loop nested seq rest c e = Some (f, e') →
                              extra_kept e e').
  { apply IH. intros v Hv. apply Hn. by apply list_elem_of_further. }
  rewrite traverse_loop_cons. cbv zeta.
  destruct (_ && _).
  - destruct (Nat.ltb _ _); [|apply Hrest].
    destruct (nested _ _ _) as [[f e]|] eqn:Hnest; [|done].
    intros Hl. eapply extra_kept_trans; [|by eapply Hrest].
    eapply Hn; [apply list_elem_of_here|exact Hnest].
  - destruct (dict_truthy _); [apply Hrest|].
    intros Hl. eapply extra_kept_trans; [|by eapply Hrest].
    apply parse_metadata_extra_kept.
Qed.

Lemma traverse_metadata_fuel_extra_kept fuel : ∀ metadata seq extra found extra',
  _traverse_metadata_fuel fuel metadata seq extra = Some (found, extra') →
  extra_kept extra extra'.
Proof.
  induction fuel as [|fuel IH]; intros metadata seq extra found extra'; [done|].
  simpl. apply traverse_loop_extra_kept. intros value _ e f e'. apply IH.
Qed.
End traversal.


(** X2: an [Annotated] met among the metadata is looked into: of its
    arguments that are not [None], the first, the annotated type, is
    skipped and the others are traversed in its place. *)
Theorem traverse_metadata_nested `{Imports} (t m : obj) (ms : list obj)
    (seq : bool) (extra : option (gmap string obj)) :
  is_None t = false →
  _traverse_metadata [PAnnotated t m ms] seq extra
  = _traverse_metadata (filter (λ v, is_None v = false) (m :: ms)) seq extra.
Proof.
  intros Ht. rewrite (traverse_metadata_unfold [_]), traverse_loop_cons.
  cbv zeta. cbn [is_annotated_type get_args andb].
  rewrite filter_cons_True by done. cbn [length Nat.eqb negb tail].
  destruct (filter _ (m :: ms)) as [|x l] eqn:Hf.
  - cbn [length Nat.ltb Nat.leb]. done.
  - cbn [length Nat.ltb Nat.leb].
    destruct (_traverse_metadata (x :: l) seq extra) as [[found extra']|]; [|done].
    cbn [traverse_loop]. by rewrite (right_id_L ∅ (∪)).
Qed.

Lemma traverse_metadata_nested_witness :
  @_traverse_metadata sample_imports
    [PAnnotated (PClass "int") PNone [PInst "Gt" [("gt", PInt 0)]]] false None
  = @_traverse_metadata sample_imports [PInst "Gt" [("gt", PInt 0)]] false None.
Proof.
  exact (@traverse_metadata_nested sample_imports (PClass "int") PNone
           [PInst "Gt" [("gt", PInt 0)]] false None eq_refl).
Defined.

(** X3: the traversal takes nothing but [example] out of the dictionary the
    caller passed as [extra], whatever the metadata, and never puts
    anything in: afterwards the dictionary holds every other key with the
    value it had, and no new key. *)
Theorem traverse_metadata_keeps_extra `{Imports} (metadata : list obj) (seq : bool)
    (extra : gmap string obj) :
  ∃ found after,
    _traverse_metadata metadata seq (Some extra) = Some (found, Some after)
    ∧ (∀ k, k ≠ "example" → after !! k = extra !! k)
    ∧ (after !! "example" = None ∨ after !! "example" = extra !! "example").
Proof.
  destruct (traverse_metadata_total metadata seq (Some extra)) as [[found after] Ht].
  pose proof (traverse_metadata_fuel_extra_kept _ _ _ _ _ _ Ht) as Hk.
  destruct after as [after|]; [|done]. exists found, after.
  split; [done|]. split; [exact Hk|].
  clear Hk. revert Ht. unfold _traverse_metadata.
  generalize (S (list_size metadata)). intros fuel. revert metadata extra found after.
  induction fuel as [|fuel IH]; intros metadata extra found after; [done|]. simpl.
  generalize (∅ : gmap string obj). revert extra found after.
  induction metadata as [|value rest IHrest]; intros extra found after c.
  { intros [= _ <-]. by right. }
  rewrite traverse_loop_cons. cbv zeta.
  assert (Hchain : ∀ mid c', (mid !! "example" = None ∨ mid !! "example" = extra !! "example") →
            traverse_loop (_traverse_metadata_fuel fuel) seq rest c' (Some mid)
            = Some (found, Some after) →
            after !! "example" = None ∨ after !! "example" = extra !! "example").
  { intros mid c' Hmid Hl. destruct (IHrest _ _ _ _ Hl) as [?|Ha]; [by left|].
    rewrite Ha. exact Hmid. }
  destruct (_ && _).
  - destruct (Nat.ltb _ _); [|apply Hchain; by right].
    destruct (_traverse_metadata_fuel fuel _ seq (Some extra)) as [[f e]|] eqn:Hn; [|done].
    pose proof (traverse_metadata_fuel_extra_kept _ _ _ _ _ _ Hn) as Hk.
    destruct e as [e|]; [|done]. apply Hchain. by eapply IH.
  - destruct (dict_truthy _); [apply Hchain; by right|].
    unfold _parse_metadata at 2. cbn [snd]. unfold effective_extra.
    destruct (dict_truthy extra); [|apply Hchain; by right].
    apply Hchain. left. apply lookup_delete_eq.
Qed.

(** X4: [_parse_metadata] never binds a key to [None], never returns the key
    [example], and returns no key other than the sixteen constraint names
    and the keys of the extra dictionary it worked on. *)
Theorem parse_metadata_keys `{Imports} (value : obj) (seq : bool)
    (extra : option (gmap string obj)) (k : string) (v : obj) :
  (_parse_metadata value seq extra).1 !! k = Some v →
  v ≠ PNone ∧ k ≠ "example"
  ∧ (effective_extra value extra !! k = Some v
     ∨ k ∈ [ "gt"; "ge"; "lt"; "le"; "multiple_of"; "min_length"; "max_length";
             "description"; "examples"; "title"; "lower_case"; "upper_case";
             "pattern"; "min_items"; "max_items"; "const" ]).
Proof.
  intros Hk. split; [intros ->; by apply parse_metadata_no_None in Hk|].
  rewrite parse_metadata_lookup in Hk.
  destruct (decide (k = "example")) as [->|Hne].
  { by rewrite lookup_delete_eq in Hk. }
  split; [done|]. rewrite lookup_delete_ne in Hk by done.
  destruct (effective_extra value extra !! k) as [u|].
  { left. unfold drop_none in Hk. destruct (is_None u); [done|]. by injection Hk as ->. }
  right. apply (existsb_eqb_elem_of k), not_false_iff_true.
  intros Hnot. cbn [existsb] in Hnot. rewrite !orb_false_iff in Hnot.
  destruct Hnot as (?&?&?&?&?&?&?&?&?&?&?&?&?&?&?&?&_).
  unfold constraint_table in Hk. cbn [assoc] in Hk.
  repeat match goal with
         | Hx : String.eqb k _ = false |- _ => rewrite Hx in Hk; clear Hx
         end.
  done.
Qed.

Lemma parse_metadata_keys_witness :
  PInt 3 ≠ PNone ∧ "min_length" ≠ "example"
  ∧ (@effective_extra sample_imports (PInst "FieldInfo" [("min_length", PInt 3)]) None
       !! "min_length" = Some (PInt 3)
     ∨ "min_length" ∈
         [ "gt"; "ge"; "lt"; "le"; "multiple_of"; "min_length"; "max_length";
           "description"; "examples"; "title"; "lower_case"; "upper_case";
           "pattern"; "min_items"; "max_items"; "const" ]).
Proof.
  apply (@parse_metadata_keys sample_imports (PInst "FieldInfo" [("min_length", PInt 3)])
           false None "min_length" (PInt 3)).
  rewrite parse_metadata_lookup. vm_compute. reflexivity.
Defined.

(** X5: [_create_metadata_from_type] loses and repeats nothing: the keyword
    arguments handed to the model and the extra mapping returned are
    disjoint, together they are the constraints that were found, the
    former hold keys of [dir(model)] only and the latter none of them. *)
Theorem split_constraints_partition `{Imports} (model : string)
    (found : gmap string obj) :
  let '(constraints, rest) := split_constraints model found in
  constraints ∪ rest = found
  ∧ constraints ##ₘ rest
  ∧ (∀ k, is_Some (constraints !! k) → k ∈ dir_ model)
  ∧ (∀ k, is_Some (rest !! k) → k ∉ dir_ model).
Proof.
  pose proof (split_constraints_lookup model found) as Hl.
  destruct (split_constraints model found) as [constraints rest]. cbn [fst snd] in Hl.
  split; [|split; [|split]].
  - apply map_eq. intros k. rewrite lookup_union.
    destruct (decide (k ∈ dir_ model)) as [Hk|Hk].
    + destruct (proj1 (Hl k) Hk) as [-> ->]. by destruct (found !! k).
    + destruct (proj2 (Hl k) Hk) as [-> ->]. by destruct (found !! k).
  - apply map_disjoint_spec. intros k x y Hx Hy.
    destruct (decide (k ∈ dir_ model)) as [Hk|Hk].
    + destruct (proj1 (Hl k) Hk) as [_ Hr]. congruence.
    + destruct (proj2 (Hl k) Hk) as [Hc _]. congruence.
  - intros k [x Hx]. destruct (decide (k ∈ dir_ model)) as [Hk|Hk]; [done|].
    destruct (proj2 (Hl k) Hk) as [Hc _]. congruence.
  - intros k [x Hx] Hk. destruct (proj1 (Hl k) Hk) as [_ Hr]. congruence.
Qed.

(** ** Keyword definitions, extra and defaults in [from_annotation] *)

Lemma dict_truthy_lookup (e : gmap string obj) k v :
  e !! k = Some v → dict_truthy e = true.
Proof.
  intros Hk. unfold dict_truthy. destruct (Nat.eqb_spec (size e) 0) as [Hs|]; [|done].
  apply map_size_empty_iff in Hs. by rewrite Hs, lookup_empty in Hk.
Qed.

Section keywords.
Context `{Imports}.
Import FieldDefinition.

Lemma finish_extra instance : extra (finish instance) = extra instance.
Proof. unfold finish. by destruct (_ && _). Qed.

Lemma hash_data_unfold self :
  hash_data self =
  HTuple [ HObj (PStr (name self)); HObj (raw self); HObj (annotation self);
           HObj (origin self); HTuple (map hash_data (inner_types self)) ].
Proof. by destruct self. Qed.

Lemma hash_data_finish instance : hash_data (finish instance) = hash_data instance.
Proof.
  rewrite !hash_data_unfold.
  by destruct (finish_keeps instance) as (-> & -> & _ & -> & _ & _ & -> & _ & ->).
Qed.

Lemma depth_inner (a x : t) : x ∈ inner_types a → depth x < depth a.
Proof.
  destruct a as [? ? ? ? ? ? ? ? inner ? ? ? ?]. cbn [inner_types]. intros Hx.
  cbn [depth inner_types]. apply Nat.lt_succ_r.
  induction inner as [|y inner IH]; [by apply elem_of_nil in Hx|].
  apply elem_of_cons in Hx as [->|Hx]; cbn [foldr]; [lia|].
  specialize (IH Hx). lia.
Qed.

Lemma list_eqb_same {A} (eqb : A → A → bool) (l : list A) :
  (∀ x, x ∈ l → eqb x x = true) → list_eqb eqb l l = true.
Proof.
  induction l as [|x l IH]; intros Hl; [done|]. cbn.
  rewrite (Hl x) by apply list_elem_of_here. cbn. apply IH.
  intros y Hy. apply Hl. by apply list_elem_of_further.
Qed.

(** Instances with the same origin, annotation and inner types compare
    equal as soon as [==] is reflexive on what they hold. *)
Lemma eq_same_shape :
  (∀ x, py_eq x x = true) →
  ∀ n a b, depth a < n →
    origin a = origin b → annotation a = annotation b →
    inner_types a = inner_types b →
    __eq__ a (AFieldDefinition b) = true.
Proof.
  intros Hrefl. induction n as [|n IH]; intros a b Hn Ho Ha Hi; [lia|].
  rewrite eq_unfold, <- Ho, <- Ha, <- Hi, !Hrefl.
  destruct (truthy (origin a)); [|done]. cbn [andb].
  apply list_eqb_same. intros x Hx. apply IH; [|done..].
  pose proof (depth_inner a x Hx). lia.
Qed.

(** What the keyword-definition block does when nothing gives a keyword
    definition before the extra dictionary is looked at. *)
Lemma settle_kwarg_definition_late a meta kw :
  truthy (from_option id PNone (kw_kwarg_definition kw)) = false →
  is_kwarg_or_dependency (from_option id PNone (kw_default kw)) = false →
  existsb is_kwarg_or_dependency meta = false →
  settle_kwarg_definition a meta kw =
  let extra := from_option id ∅ (kw_extra kw) in
  match extra !! "kwarg_definition" with
  | Some kd =>
      Some (set_kwarg_definition kd (set_extra (delete "kwarg_definition" extra) kw), meta)
  | None =>
      match _extract_metadata a (from_option id "" (kw_name kw))
              (from_option id types.Empty (kw_default kw)) meta (Some extra) with
      | Some (kd, ex) => Some (set_kwarg_definition kd (set_extra ex kw), meta)
      | None => None
      end
  end.
Proof.
  intros Hkd Hd Hm. unfold settle_kwarg_definition. rewrite Hkd, Hd, Hm. cbn [negb].
  cbv zeta. destruct (from_option id ∅ (kw_extra kw) !! "kwarg_definition") as [kd|] eqn:Hk.
  - by rewrite (dict_truthy_lookup _ _ _ Hk).
  - by destruct (dict_truthy _).
Qed.
End keywords.

(** X6: a keyword definition that the caller passes inside [extra], under the
    key [kwarg_definition], is used when neither the caller's
    [kwarg_definition], nor the default, nor the [Annotated] metadata gives
    one: it becomes the [kwarg_definition] of the instance, and the
    instance's [extra] is the caller's without that key. *)
Theorem from_annotation_kwarg_definition_in_extra `{Imports} (a : obj)
    (kw : FieldDefinition.kwargs) (e : gmap string obj) (kd : obj) :
  truthy (from_option id PNone (FieldDefinition.kw_kwarg_definition kw)) = false →
  is_kwarg_or_dependency (from_option id PNone (FieldDefinition.kw_default kw)) = false →
  existsb is_kwarg_or_dependency
    (unwrap_annotation (if obj_eqb a types.Empty then typing.Any else a)).1.2 = false →
  FieldDefinition.kw_extra kw = Some e →
  e !! "kwarg_definition" = Some kd →
  ∃ fd, FieldDefinition.from_annotation a kw = Some fd
    ∧ FieldDefinition.kwarg_definition fd = kd
    ∧ FieldDefinition.extra fd = delete "kwarg_definition" e.
Proof.
  intros Hkd Hd Hm He Hk.
  destruct (from_annotation_returns a kw) as (kw' & meta' & inner & Hs & _ & Hfd).
  cbv zeta in *. rewrite settle_kwarg_definition_late in Hs by done.
  cbv zeta in Hs. rewrite He in Hs. cbn [from_option id] in Hs. rewrite Hk in Hs.
  injection Hs as <- <-. eexists. split; [exact Hfd|].
  rewrite finish_extra.
  match goal with
  | |- context [FieldDefinition.finish ?i] =>
      destruct (finish_keeps i) as (_ & _ & _ & _ & _ & _ & _ & -> & _)
  end.
  done.
Qed.

Lemma from_annotation_kwarg_definition_in_extra_witness :
  ∃ fd, @FieldDefinition.from_annotation sample_imports (PClass "int")
          (FieldDefinition.set_extra
             {[ "kwarg_definition" := PInst "ParameterKwarg" [("gt", PInt 1)] ]}
             FieldDefinition.no_kwargs) = Some fd
    ∧ FieldDefinition.kwarg_definition fd = PInst "ParameterKwarg" [("gt", PInt 1)]
    ∧ FieldDefinition.extra fd
      = delete "kwarg_definition"
          ({[ "kwarg_definition" := PInst "ParameterKwarg" [("gt", PInt 1)] ]}
             : gmap string obj).
Proof.
  apply (@from_annotation_kwarg_definition_in_extra sample_imports (PClass "int")
           (FieldDefinition.set_extra
              {[ "kwarg_definition" := PInst "ParameterKwarg" [("gt", PInt 1)] ]}
              FieldDefinition.no_kwargs)
           {[ "kwarg_definition" := PInst "ParameterKwarg" [("gt", PInt 1)] ]}
           (PInst "ParameterKwarg" [("gt", PInt 1)]));
    vm_compute; reflexivity.
Defined.

(** X7: when nothing gives a keyword definition, that is, the caller passes
    none, the default is neither one nor a [FieldInfo], the annotation
    carries no [Annotated] metadata, is no constrained field or DTO and
    has no [KwargDefinition] among its arguments, and [extra] has no key
    [kwarg_definition], then the instance has no keyword definition and
    its [extra] is empty: what the caller passed as [extra] is not kept. *)
Theorem from_annotation_drops_extra `{Imports} (a : obj) (kw : FieldDefinition.kwargs) :
  truthy (from_option id PNone (FieldDefinition.kw_kwarg_definition kw)) = false →
  is_kwarg_or_dependency (from_option id PNone (FieldDefinition.kw_default kw)) = false →
  isinstance (from_option id types.Empty (FieldDefinition.kw_default kw)) "FieldInfo" = false →
  (unwrap_annotation (if obj_eqb a types.Empty then typing.Any else a)).1.2 = [] →
  from_option id ∅ (FieldDefinition.kw_extra kw) !! "kwarg_definition" = None →
  is_pydantic_constrained_field a = false →
  isinstance a "AbstractDTOFactory" = false →
  existsb is_KwargDefinition (get_args a) = false →
  ∃ fd, FieldDefinition.from_annotation a kw = Some fd
    ∧ FieldDefinition.kwarg_definition fd = PNone
    ∧ FieldDefinition.extra fd = ∅.
Proof.
  intros Hkd Hd Hfi Hm Hk Hpc Hdto Hargs.
  destruct (from_annotation_returns a kw) as (kw' & meta' & inner & Hs & _ & Hfd).
  cbv zeta in *. rewrite Hm in Hs.
  rewrite settle_kwarg_definition_late in Hs by done.
  cbv zeta in Hs. rewrite Hk in Hs.
  unfold FieldDefinition._extract_metadata in Hs.
  rewrite Hfi, Hpc, Hdto, Hargs in Hs. cbn [orb] in Hs.
  injection Hs as <- <-. eexists. split; [exact Hfd|].
  rewrite finish_extra.
  match goal with
  | |- context [FieldDefinition.finish ?i] =>
      destruct (finish_keeps i) as (_ & _ & _ & _ & _ & _ & _ & -> & _)
  end.
  done.
Qed.

Lemma from_annotation_drops_extra_witness :
  ∃ fd, @FieldDefinition.from_annotation sample_imports (PClass "int")
          (FieldDefinition.set_extra {[ "deprecated" := PBool true ]}
             FieldDefinition.no_kwargs) = Some fd
    ∧ FieldDefinition.kwarg_definition fd = PNone
    ∧ FieldDefinition.extra fd = ∅.
Proof.
  apply (@from_annotation_drops_extra sample_imports (PClass "int")
           (FieldDefinition.set_extra {[ "deprecated" := PBool true ]}
              FieldDefinition.no_kwargs));
    vm_compute; reflexivity.
Defined.

(** X8: a truthy [kwarg_definition] passed to [from_kwarg] is the one the
    instance gets; the [Annotated] metadata is then stored as it was found,
    keyword definitions included, and [extra] as the caller gave it, or
    empty. *)
Theorem from_kwarg_explicit_kwarg_definition `{Imports} (a : obj) (n : string)
    (d : obj) (inner_types : option (list FieldDefinition.t)) (kd : obj)
    (e : option (gmap string obj)) :
  truthy kd = true →
  ∃ fd, FieldDefinition.from_kwarg a n d inner_types kd e = Some fd
    ∧ FieldDefinition.kwarg_definition fd = kd
    ∧ FieldDefinition.name fd = n
    ∧ FieldDefinition.metadata fd
      = (unwrap_annotation (if obj_eqb a types.Empty then typing.Any else a)).1.2
    ∧ FieldDefinition.extra fd = from_option id ∅ e.
Proof.
  intros Hkd. assert (is_None kd = false) as Hn by (by destruct kd).
  unfold FieldDefinition.from_kwarg. rewrite Hn.
  match goal with
  | |- context [FieldDefinition.from_annotation a ?k] => set (kw := k)
  end.
  destruct (from_annotation_returns a kw) as (kw' & meta' & inner & Hs & _ & Hfd).
  cbv zeta in *. unfold FieldDefinition.settle_kwarg_definition in Hs.
  cbn [FieldDefinition.kw_kwarg_definition kw from_option id] in Hs.
  subst kw. cbn [FieldDefinition.kw_kwarg_definition from_option id] in Hs.
  rewrite Hkd in Hs. cbn [negb] in Hs. injection Hs as <- <-.
  eexists. split; [exact Hfd|]. rewrite finish_extra.
  match goal with
  | |- context [FieldDefinition.finish ?i] =>
      destruct (finish_keeps i) as (_ & _ & _ & _ & _ & -> & _ & -> & ->)
  end.
  done.
Qed.

Lemma from_kwarg_explicit_kwarg_definition_witness :
  ∃ fd, @FieldDefinition.from_kwarg sample_imports
          (PAnnotated (PClass "int") (PInst "ParameterKwarg" [("gt", PInt 1)]) [])
          "limit" types.Empty None (PInst "ParameterKwarg" [("lt", PInt 9)]) None = Some fd
    ∧ FieldDefinition.kwarg_definition fd = PInst "ParameterKwarg" [("lt", PInt 9)]
    ∧ FieldDefinition.metadata fd = [PInst "ParameterKwarg" [("gt", PInt 1)]].
Proof.
  destruct (@from_kwarg_explicit_kwarg_definition sample_imports
              (PAnnotated (PClass "int") (PInst "ParameterKwarg" [("gt", PInt 1)]) [])
              "limit" types.Empty None (PInst "ParameterKwarg" [("lt", PInt 9)]) None
              eq_refl) as (fd & Hfd & Hkd & _ & Hm & _).
  exists fd. split; [exact Hfd|]. split; [exact Hkd|]. exact Hm.
Defined.

(** X9: an instance that has a truthy keyword definition is without a default
    only when the keyword definition is: [from_annotation] fills a missing
    default from the [default] attribute of the keyword definition. *)
Theorem from_annotation_default_from_kwarg_definition `{Imports} (a : obj)
    (kw : FieldDefinition.kwargs) :
  ∃ fd, FieldDefinition.from_annotation a kw = Some fd
    ∧ (truthy (FieldDefinition.kwarg_definition fd) = true →
       FieldDefinition.has_default fd = false →
       FieldDefinition.default fd
       = getattr (FieldDefinition.kwarg_definition fd) "default" PNone
       ∧ (FieldDefinition.default fd = types.Empty
          ∨ FieldDefinition.default fd = PEllipsis)).
Proof.
  destruct (from_annotation_returns a kw) as (kw' & meta' & inner & _ & _ & Hfd).
  cbv zeta in *. eexists. split; [exact Hfd|].
  match goal with
  | |- context [FieldDefinition.finish ?i] => generalize i
  end.
  intros inst. unfold FieldDefinition.finish.
  destruct (FieldDefinition.has_default inst) eqn:Hh; cbn [negb andb].
  { intros _ Hh'. congruence. }
  destruct (truthy (FieldDefinition.kwarg_definition inst)) eqn:Ht;
    [|intros Hx; congruence].
  cbn [FieldDefinition.replace_default FieldDefinition.kwarg_definition
       FieldDefinition.default].
  intros _ Hd. split; [done|].
  unfold FieldDefinition.has_default in Hd. cbn [FieldDefinition.default] in Hd.
  apply andb_false_iff in Hd as [Hd|Hd]; apply negb_false_iff, obj_eqb_true in Hd;
    [by left|by right].
Qed.

(** ** Inner types, equality and hashing of built instances *)

Section built.
Context `{Imports}.
Import FieldDefinition.

Lemma from_annotation_plain arg inner_type :
  from_annotation arg no_kwargs = Some inner_type →
  raw inner_type = arg ∧ name inner_type = "".
Proof.
  destruct (from_annotation_returns arg no_kwargs) as (kw' & meta' & inner & Hs & _ & Hfd).
  cbv zeta in *. rewrite Hfd. intros [= <-].
  destruct (settle_kwarg_definition_keeps _ _ _ _ _ Hs)
    as (Kraw & _ & _ & _ & _ & _ & _ & Kname & _).
  match goal with
  | |- context [finish ?i] =>
      destruct (finish_keeps i) as (-> & _ & _ & _ & _ & _ & _ & _ & ->)
  end.
  cbn [make_instance raw name]. by rewrite Kraw, Kname.
Qed.

Lemma inner_types_of_args args inner :
  mapM (λ arg, from_annotation arg no_kwargs) args = Some inner →
  map raw inner = args ∧ Forall (λ t, name t = "") inner.
Proof.
  intros Hinner. apply mapM_Some in Hinner.
  induction Hinner as [|arg t args ts Ht _ [IHraw IHname]]; [done|].
  destruct (from_annotation_plain _ _ Ht) as [Hraw Hname]. split.
  - cbn [map]. by rewrite IHraw, Hraw.
  - by constructor.
Qed.

Lemma from_kwarg_shape a n d it kd e :
  ∃ fd inner,
    let unwrapped :=
      (unwrap_annotation (if obj_eqb a types.Empty then typing.Any else a)).1.1 in
    from_kwarg a n d it kd e = Some fd
    ∧ mapM (λ arg, from_annotation arg no_kwargs)
        (if obj_eqb (get_origin unwrapped) abc.Callable then [] else get_args unwrapped)
      = Some inner
    ∧ name fd = n ∧ raw fd = a ∧ annotation fd = unwrapped
    ∧ origin fd = get_origin unwrapped
    ∧ inner_types fd = from_option id inner it.
Proof.
  unfold from_kwarg.
  match goal with
  | |- context [from_annotation a ?k] => set (kw := k)
  end.
  destruct (from_annotation_returns a kw) as (kw' & meta' & inner & Hs & Hin & Hfd).
  cbv zeta in *. eexists. exists inner. split; [exact Hfd|]. split; [exact Hin|].
  destruct (settle_kwarg_definition_keeps _ _ _ _ _ Hs)
    as (Kraw & Kann & _ & Kor & _ & _ & Kin & Kname & _).
  match goal with
  | |- context [finish ?i] =>
      destruct (finish_keeps i) as (-> & -> & _ & -> & _ & _ & -> & _ & ->)
  end.
  cbn [make_instance raw name annotation origin inner_types].
  by rewrite Kraw, Kann, Kor, Kin, Kname.
Qed.
End built.

(** X10: the inner types of an instance are built from its args one for one,
    in order: the [raw] annotations of the inner types are the args, none
    of the inner types has a name, and the inner types of a [Callable] are
    empty. *)
Theorem from_annotation_inner_types_raw `{Imports} (a : obj)
    (kw : FieldDefinition.kwargs) :
  FieldDefinition.kw_annotation kw = None →
  FieldDefinition.kw_origin kw = None →
  FieldDefinition.kw_args kw = None →
  FieldDefinition.kw_inner_types kw = None →
  ∃ fd, FieldDefinition.from_annotation a kw = Some fd
    ∧ map FieldDefinition.raw (FieldDefinition.inner_types fd) = FieldDefinition.args fd
    ∧ Forall (λ t, FieldDefinition.name t = "") (FieldDefinition.inner_types fd)
    ∧ (FieldDefinition.origin fd = abc.Callable → FieldDefinition.inner_types fd = []).
Proof.
  intros Hann Hor Har Hin.
  destruct (from_annotation_returns a kw) as (kw' & meta' & inner & Hs & Hinner & Hfd).
  cbv zeta in *. eexists. split; [exact Hfd|].
  destruct (settle_kwarg_definition_keeps _ _ _ _ _ Hs)
    as (_ & Kann & _ & Kor & Kar & _ & Kin & _ & _).
  match goal with
  | |- context [FieldDefinition.finish ?i] =>
      destruct (finish_keeps i) as (_ & _ & _ & -> & -> & _ & -> & _ & _)
  end.
  cbn [FieldDefinition.make_instance FieldDefinition.origin FieldDefinition.args
       FieldDefinition.inner_types].
  rewrite Kor, Kar, Kin, Hor, Har, Hin. cbn [from_option id].
  destruct (inner_types_of_args _ _ Hinner) as [Hraw Hname].
  split; [exact Hraw|]. split; [exact Hname|].
  intros Hc. rewrite Hc, obj_eqb_refl in Hinner. by injection Hinner as <-.
Qed.

Lemma from_annotation_inner_types_raw_witness :
  ∃ fd, @FieldDefinition.from_annotation sample_imports
          (PAlias (PClass "dict") [PClass "str"; PAlias (PClass "list") [PClass "int"]])
          FieldDefinition.no_kwargs = Some fd
    ∧ map FieldDefinition.raw (FieldDefinition.inner_types fd) = FieldDefinition.args fd.
Proof.
  destruct (@from_annotation_inner_types_raw sample_imports
              (PAlias (PClass "dict")
                 [PClass "str"; PAlias (PClass "list") [PClass "int"]])
              FieldDefinition.no_kwargs eq_refl eq_refl eq_refl eq_refl)
    as (fd & Hfd & Hraw & _).
  exists fd. split; assumption.
Defined.

(** X11: equality is reflexive whenever [==] is reflexive on the origins and
    annotations that instances hold. *)
Theorem eq_reflexive `{Imports} (a : FieldDefinition.t) :
  (∀ x, py_eq x x = true) →
  FieldDefinition.__eq__ a (FieldDefinition.AFieldDefinition a) = true.
Proof.
  intros Hrefl. by apply (eq_same_shape Hrefl (S (FieldDefinition.depth a))); [lia|..].
Qed.

Lemma eq_reflexive_witness :
  @FieldDefinition.__eq__ sample_imports
    (FieldDefinition.mk (PClass "int") (PClass "int") [] PNone [] [] PNone PNone []
       types.Empty ∅ PNone "x")
    (FieldDefinition.AFieldDefinition
       (FieldDefinition.mk (PClass "int") (PClass "int") [] PNone [] [] PNone PNone []
          types.Empty ∅ PNone "x")) = true.
Proof.
  apply (@eq_reflexive sample_imports). intros x. apply obj_eqb_refl.
Defined.

(** X12: what [from_kwarg] is given as default, keyword definition and extra
    has no part in the hash or in equality: two instances built for the
    same annotation, name and inner types have the same hash, and compare
    equal when [==] is reflexive. *)
Theorem from_kwarg_hash_eq `{Imports} (a : obj) (n : string)
    (inner_types : option (list FieldDefinition.t))
    (d1 kd1 d2 kd2 : obj) (e1 e2 : option (gmap string obj)) :
  ∃ fd1 fd2,
    FieldDefinition.from_kwarg a n d1 inner_types kd1 e1 = Some fd1
    ∧ FieldDefinition.from_kwarg a n d2 inner_types kd2 e2 = Some fd2
    ∧ FieldDefinition.__hash__ fd1 = FieldDefinition.__hash__ fd2
    ∧ ((∀ x, py_eq x x = true) →
       FieldDefinition.__eq__ fd1 (FieldDefinition.AFieldDefinition fd2) = true).
Proof.
  destruct (from_kwarg_shape a n d1 inner_types kd1 e1)
    as (fd1 & inner1 & H1 & Hm1 & Hn1 & Hr1 & Ha1 & Ho1 & Hi1).
  destruct (from_kwarg_shape a n d2 inner_types kd2 e2)
    as (fd2 & inner2 & H2 & Hm2 & Hn2 & Hr2 & Ha2 & Ho2 & Hi2).
  cbv zeta in *. rewrite Hm1 in Hm2. injection Hm2 as <-.
  exists fd1, fd2. split; [done|]. split; [done|]. split.
  - unfold FieldDefinition.__hash__. rewrite !hash_data_unfold.
    by rewrite Hn1, Hr1, Ha1, Ho1, Hi1, Hn2, Hr2, Ha2, Ho2, Hi2.
  - intros Hrefl. apply (eq_same_shape Hrefl (S (FieldDefinition.depth fd1))); [lia|..].
    + by rewrite Ho1, Ho2.
    + by rewrite Ha1, Ha2.
    + by rewrite Hi1, Hi2.
Qed.

(** ** The keyword definition made from metadata *)

Lemma hd_filter_existsb {A} (p : A → bool) (d : A) (l : list A) :
  existsb p l = true →
  hd d (filter (λ x, p x = true) l) ∈ l ∧ p (hd d (filter (λ x, p x = true) l)) = true.
Proof.
  induction l as [|x l IH]; [done|]. cbn [existsb]. rewrite filter_cons.
  destruct (p x) eqn:Hx.
  - intros _. rewrite decide_True by done. cbn [hd]. split; [apply list_elem_of_here|done].
  - cbn [orb]. intros Hl. rewrite decide_False by done.
    destruct (IH Hl) as [Hin Hp]. split; [by apply list_elem_of_further|done].
Qed.

Section made.
Context `{Imports}.

Lemma create_metadata_kinds metadata model annotation extra :
  ∃ kd rest,
    _create_metadata_from_type metadata model annotation extra = Some (kd, rest)
    ∧ (kd = PNone
       ∨ ∃ constraints : gmap string obj,
           kd = construct model constraints
           ∧ dict_truthy constraints = true
           ∧ ∀ k, is_Some (constraints !! k) → k ∈ dir_ model).
Proof.
  unfold _create_metadata_from_type.
  destruct (traverse_metadata_total metadata (is_non_string_sequence annotation) extra)
    as [[found extra'] ->].
  pose proof (split_constraints_lookup model found) as Hl.
  destruct (split_constraints model found) as [constraints rest]. cbn [fst snd] in Hl.
  eexists _, _. split; [done|].
  destruct (dict_truthy constraints) eqn:Hc; [|by left].
  right. exists constraints. split; [done|]. split; [done|].
  intros k [x Hx]. destruct (decide (k ∈ dir_ model)) as [Hk|Hk]; [done|].
  destruct (proj2 (Hl k) Hk) as [Hnone _]. congruence.
Qed.
End made.

(** X13: [_extract_metadata] returns, as the keyword definition, [None], or
    the first [KwargDefinition] among the arguments of the annotation, or
    an instance of the model built from keys of [dir(model)], at least
    one; and the model is [BodyKwarg] for the name [data] and
    [ParameterKwarg] for every other name. *)
Theorem extract_metadata_kinds `{Imports} (annotation : obj) (name : string)
    (default : obj) (metadata : list obj) (extra : option (gmap string obj)) :
  let model := if String.eqb name "data" then "BodyKwarg" else "ParameterKwarg" in
  ∃ kd rest,
    FieldDefinition._extract_metadata annotation name default metadata extra
    = Some (kd, rest)
    ∧ (kd = PNone
       ∨ (kd ∈ get_args annotation ∧ is_KwargDefinition kd = true)
       ∨ ∃ constraints : gmap string obj,
           kd = construct model constraints
           ∧ dict_truthy constraints = true
           ∧ ∀ k, is_Some (constraints !! k) → k ∈ dir_ model).
Proof.
  cbv zeta. unfold FieldDefinition._extract_metadata.
  set (model := if String.eqb name "data" then "BodyKwarg" else "ParameterKwarg").
  assert (Hcreate : ∀ m,
    ∃ kd rest, _create_metadata_from_type m model annotation extra = Some (kd, rest)
      ∧ (kd = PNone
         ∨ (kd ∈ get_args annotation ∧ is_KwargDefinition kd = true)
         ∨ ∃ constraints : gmap string obj,
             kd = construct model constraints
             ∧ dict_truthy constraints = true
             ∧ ∀ k, is_Some (constraints !! k) → k ∈ dir_ model)).
  { intros m. destruct (create_metadata_kinds m model annotation extra)
      as (kd & rest & Hc & [Hk|Hk]); exists kd, rest; (split; [done|]); auto. }
  destruct (isinstance default "FieldInfo"); [apply Hcreate|].
  destruct (_ || _); [apply Hcreate|].
  destruct (existsb is_KwargDefinition (get_args annotation)) eqn:Hargs.
  - eexists _, _. split; [done|]. right. left.
    by apply hd_filter_existsb.
  - destruct metadata as [|m ms]; [|apply Hcreate].
    eexists _, _. split; [done|]. by left.
Qed.

(** X14: a metadata value that goes through [_parse_metadata] always makes a
    keyword definition when the model has a field [const], since [const]
    is always among the constraints: the definition made from a single
    such value is an instance of the model, with [const] telling whether
    the value has a [const] attribute that is not [None]. *)
Theorem create_metadata_always_const `{Imports} (value : obj) (model : string)
    (annotation : obj) (extra : option (gmap string obj)) :
  is_annotated_type value = false →
  _unpack_predicate value = ∅ →
  effective_extra value extra !! "const" = None →
  "const" ∈ dir_ model →
  ∃ constraints rest,
    _create_metadata_from_type [value] model annotation extra
    = Some (construct model constraints, rest)
    ∧ constraints !! "const"
      = Some (PBool (negb (is_None (getattr value "const" PNone))))
    ∧ rest !! "const" = None.
Proof.
  intros Ha Hu Hextra Hdir. unfold _create_metadata_from_type.
  rewrite traverse_metadata_single, Hu, dict_truthy_empty by done.
  destruct (_parse_metadata value (is_non_string_sequence annotation) extra)
    as [found extra'] eqn:Hp.
  assert (found !! "const"
          = Some (PBool (negb (is_None (getattr value "const" PNone))))) as Hc.
  { replace found with
      (_parse_metadata value (is_non_string_sequence annotation) extra).1
      by by rewrite Hp.
    rewrite parse_metadata_lookup, lookup_delete_ne by done. by rewrite Hextra. }
  pose proof (split_constraints_lookup model found "const") as [Hl _].
  destruct (Hl Hdir) as [Hc1 Hc2]. clear Hl.
  destruct (split_constraints model found) as [constraints rest]. cbn [fst snd] in *.
  rewrite Hc in Hc1. rewrite (dict_truthy_lookup _ _ _ Hc1).
  by exists constraints, rest.
Qed.

Lemma create_metadata_always_const_witness :
  ∃ constraints rest,
    @_create_metadata_from_type sample_imports [PStr "note"] "ParameterKwarg"
      (PClass "int") None
    = Some (construct "ParameterKwarg" constraints, rest)
    ∧ constraints !! "const"
      = Some (PBool (negb (is_None (@getattr sample_imports (PStr "note") "const" PNone))))
    ∧ rest !! "const" = None.
Proof.
  apply (@create_metadata_always_const sample_imports (PStr "note") "ParameterKwarg"
           (PClass "int") None).
  - reflexivity.
  - vm_compute; reflexivity.
  - vm_compute; reflexivity.
  - apply (existsb_eqb_elem_of "const"). vm_compute; reflexivity.
Defined.
